(** * DavinciProjectFiles: the project-files tool over a WebSocket

    A shallow embedding of [api/app/clients/tools/structured/DavinciProjectFiles.js]:
    the JavaScript values the tool exchanges with the remote side, the object
    literal and [JSON.stringify] that build a frame, the instance state
    ([this.ws], [this.pending_requests], the armed [setTimeout] callbacks),
    every method and event listener of the class as a state transformer, and
    the event loop that runs them one at a time. *)

From Stdlib Require Import Ascii String ZArith Bool.
From stdpp Require Import gmap strings list fin_maps pretty.

Open Scope string_scope.
Open Scope list_scope.

(** ** JavaScript values *)

Module JS.

(** The numbers of the model: the integers that a double holds exactly
    ([Number.isSafeInteger]), which print in plain decimal notation; [-0] is
    [0], from which no code here tells it apart. *)
Definition safe_integer (z : Z) : bool := (Z.abs z <=? 9007199254740991)%Z.

(** The values that [JSON.parse] produces, plus [undefined], which is what
    reading a missing property gives. *)
#[local] Unset Elimination Schemes.
Inductive value : Type :=
| VUndefined
| VNull
| VBool (b : bool)
| VNum (z : Z) (safe : safe_integer z = true)
| VStr (s : string)
| VArr (xs : list value)
| VObj (ps : list (string * value)).
#[local] Set Elimination Schemes.

(** An object is its property table, in own-key order. *)
Abbreviation object := (list (string * value)).

(** ToBoolean: what [if (v)] and [!v] test. *)
Definition truthy (v : value) : bool :=
  match v with
  | VUndefined | VNull => false
  | VBool b => b
  | VNum z _ => negb (z =? 0)%Z
  | VStr s => negb (String.eqb s "")
  | VArr _ | VObj _ => true
  end.

Fixpoint lookup_prop (k : string) (ps : object) : value :=
  match ps with
  | [] => VUndefined
  | (k', v) :: ps' => if String.eqb k' k then v else lookup_prop k ps'
  end.

(** [v.k] for a key that only a plain object can own ([request_id], [error],
    [data], ...): [None] is the TypeError of reading a property of [null] or
    [undefined]. *)
Definition get (v : value) (k : string) : option value :=
  match v with
  | VUndefined | VNull => None
  | VObj ps => Some (lookup_prop k ps)
  | _ => Some VUndefined
  end.

(** *** Own-key order

    Array-index keys (canonical decimal numerals below 2^32 - 1) come first in
    ascending order, the other keys follow in creation order. *)

Definition digit_of (c : ascii) : option N :=
  let n := N_of_ascii c in
  if ((48 <=? n) && (n <=? 57))%N then Some (n - 48)%N else None.

Fixpoint digits_value (acc : N) (s : string) : option N :=
  match s with
  | EmptyString => Some acc
  | String c r =>
      match digit_of c with
      | Some d => digits_value (acc * 10 + d)%N r
      | None => None
      end
  end.

Definition array_index (k : string) : option N :=
  match k with
  | EmptyString => None
  | String c r =>
      if (Ascii.eqb c "0" && negb (String.eqb r ""))%bool then None
      else match digits_value 0 k with
           | Some n => if (n <? 4294967295)%N then Some n else None
           | None => None
           end
  end.

(** Where a key that the object does not own yet is created. *)
Fixpoint insert_index (n : N) (k : string) (v : value) (ps : object) : object :=
  match ps with
  | [] => [(k, v)]
  | (k', v') :: ps' =>
      match array_index k' with
      | Some n' =>
          if (n <? n')%N then (k, v) :: ps
          else (k', v') :: insert_index n k v ps'
      | None => (k, v) :: ps
      end
  end.

Definition create_prop (k : string) (v : value) (ps : object) : object :=
  match array_index k with
  | Some n => insert_index n k v ps
  | None => ps ++ [(k, v)]
  end.

Fixpoint owns (k : string) (ps : object) : bool :=
  match ps with
  | [] => false
  | (k', _) :: ps' => String.eqb k' k || owns k ps'
  end.

Fixpoint overwrite (k : string) (v : value) (ps : object) : object :=
  match ps with
  | [] => []
  | (k', v') :: ps' =>
      if String.eqb k' k then (k', v) :: ps' else (k', v') :: overwrite k v ps'
  end.

(** One [key: value] of an object literal, or one property copied by a
    spread: an owned key keeps its place and takes the new value. *)
Definition define_prop (ps : object) (kv : string * value) : object :=
  if owns kv.1 ps then overwrite kv.1 kv.2 ps else create_prop kv.1 kv.2 ps.

(** [{ k1: v1, ..., ...payload }]: the properties are defined left to right. *)
Definition object_literal (props : object) : object :=
  fold_left define_prop props [].

(** *** JSON.stringify *)

Definition dq : string := String (ascii_of_nat 34) EmptyString.
Definition backslash : string := String (ascii_of_nat 92) EmptyString.

Definition hex_digit (n : N) : ascii :=
  if (n <? 10)%N then ascii_of_N (48 + n) else ascii_of_N (87 + n).

Definition escape_char (c : ascii) : string :=
  let n := N_of_ascii c in
  if (n =? 34)%N then backslash +:+ dq
  else if (n =? 92)%N then backslash +:+ backslash
  else if (n =? 8)%N then backslash +:+ "b"
  else if (n =? 12)%N then backslash +:+ "f"
  else if (n =? 10)%N then backslash +:+ "n"
  else if (n =? 13)%N then backslash +:+ "r"
  else if (n =? 9)%N then backslash +:+ "t"
  else if (n <? 32)%N then
    backslash +:+ "u00" +:+
    String (hex_digit (n / 16)) (String (hex_digit (n mod 16)) EmptyString)
  else String c EmptyString.

Fixpoint escape_chars (s : string) : string :=
  match s with
  | EmptyString => EmptyString
  | String c r => escape_char c +:+ escape_chars r
  end.

Definition quote (s : string) : string := dq +:+ escape_chars s +:+ dq.

Fixpoint join_comma (ts : list string) : string :=
  match ts with
  | [] => ""
  | [t] => t
  | t :: ts' => t +:+ "," +:+ join_comma ts'
  end.

(** [None] is the result [undefined].  Inside an array [undefined] prints as
    [null]; a property whose value is [undefined] is left out. *)
Fixpoint JSON_stringify (v : value) : option string :=
  match v with
  | VUndefined => None
  | VNull => Some "null"
  | VBool b => Some (if b then "true" else "false")
  | VNum z _ => Some (pretty z)
  | VStr s => Some (quote s)
  | VArr xs =>
      Some ("[" +:+
            join_comma
              (List.map (fun x => default "null" (JSON_stringify x)) xs)
            +:+ "]")
  | VObj ps =>
      Some ("{" +:+
            join_comma
              (List.flat_map
                 (fun kv =>
                    match JSON_stringify kv.2 with
                    | Some t => [quote kv.1 +:+ ":" +:+ t]
                    | None => []
                    end) ps)
            +:+ "}")
  end.

(** *** ToString, as [new Error(v)] applies it to a message

    [None] is the TypeError that the conversion throws: a parsed object that
    owns a [toString] property hides the method of [Object.prototype] behind
    a value that cannot be called, and the inherited [valueOf] returns the
    object itself.  An array is joined with commas, its elements converted
    from left to right, [null] and [undefined] as the empty string. *)

Fixpoint to_String (v : value) : option string :=
  match v with
  | VUndefined => Some "undefined"
  | VNull => Some "null"
  | VBool b => Some (if b then "true" else "false")
  | VNum z _ => Some (pretty z)
  | VStr s => Some s
  | VArr xs =>
      join_comma <$>
      (fix elements (xs : list value) : option (list string) :=
         match xs with
         | [] => Some []
         | x :: xs' =>
             t ← match x with
                 | VUndefined | VNull => Some ""
                 | _ => to_String x
                 end;
             ts ← elements xs';
             Some (t :: ts)
         end) xs
  | VObj ps => if owns "toString" ps then None else Some "[object Object]"
  end.

End JS.
Import JS.

(** ** The tool instance *)

Inductive ReadyState : Type := CONNECTING | OPEN | CLOSING | CLOSED.

(** A callback armed with [setTimeout] and not run yet. *)
Inductive Timer : Type :=
| ReconnectTimer
| RequestTimer (request_id : string).

#[global] Instance Timer_eq_dec : EqDecision Timer.
Proof. solve_decision. Defined.

(** A call of a promise's [resolve] or [reject] function. *)
Inductive Settle : Type :=
| Resolve (v : value)
| Reject (message : string).

(** Which piece of code made the call. *)
Inductive Cause : Type :=
| ViaResponse (response : value)
| ViaTimeout
| ViaNotConnected.

(** The fields of a [DavinciProjectFiles] instance and of its environment.

    - [wsUrl_ok]: whether [new WebSocket(this.wsUrl, ...)] returns (it throws
      on a malformed URL);
    - [sockets]: the ready state of every WebSocket object created so far;
      [ws] is [this.ws], an index into it, [None] for [null];
    - [pending_requests]: the Map from request id to the [{ resolve, reject }]
      pair of a promise; the promise returned by the [p]-th call of
      [sendWebSocketRequest] is number [p];
    - [requests]: for each promise, the request id its call generated
      ([None] when the call rejected before generating one);
    - [settled]: every call of a [resolve] or [reject], oldest first;
    - [sent]: every frame handed to an open socket, oldest first. *)
Record Tool : Type := mkTool {
  wsUrl_ok : bool;
  ws : option nat;
  sockets : list ReadyState;
  pending_requests : gmap string nat;
  timers : list Timer;
  requests : list (option string);
  settled : list (nat * Cause * Settle);
  sent : list (nat * string)
}.

Definition set_ws (w : option nat) (t : Tool) : Tool :=
  mkTool (wsUrl_ok t) w (sockets t) (pending_requests t) (timers t)
         (requests t) (settled t) (sent t).

Definition set_sockets (ss : list ReadyState) (t : Tool) : Tool :=
  mkTool (wsUrl_ok t) (ws t) ss (pending_requests t) (timers t)
         (requests t) (settled t) (sent t).

Definition set_pending (m : gmap string nat) (t : Tool) : Tool :=
  mkTool (wsUrl_ok t) (ws t) (sockets t) m (timers t)
         (requests t) (settled t) (sent t).

Definition set_timers (ts : list Timer) (t : Tool) : Tool :=
  mkTool (wsUrl_ok t) (ws t) (sockets t) (pending_requests t) ts
         (requests t) (settled t) (sent t).

Definition set_requests (rs : list (option string)) (t : Tool) : Tool :=
  mkTool (wsUrl_ok t) (ws t) (sockets t) (pending_requests t) (timers t)
         rs (settled t) (sent t).

Definition set_settled (l : list (nat * Cause * Settle)) (t : Tool) : Tool :=
  mkTool (wsUrl_ok t) (ws t) (sockets t) (pending_requests t) (timers t)
         (requests t) l (sent t).

Definition set_sent (l : list (nat * string)) (t : Tool) : Tool :=
  mkTool (wsUrl_ok t) (ws t) (sockets t) (pending_requests t) (timers t)
         (requests t) (settled t) l.

(** [setTimeout(callback, delay)] *)
Definition setTimeout (tm : Timer) (t : Tool) : Tool :=
  set_timers (timers t ++ [tm]) t.

(** Calling the [resolve] or [reject] of promise [p]. *)
Definition settle (p : nat) (c : Cause) (o : Settle) (t : Tool) : Tool :=
  set_settled (settled t ++ [(p, c, o)]) t.

Definition calls_of (p : nat) (t : Tool) : list (nat * Cause * Settle) :=
  List.filter (fun e => Nat.eqb e.1.1 p) (settled t).

(** A promise takes the first call and ignores the later ones. *)
Definition promise_state (t : Tool) (p : nat) : option Settle :=
  snd <$> head (calls_of p t).

(** [this.ws && this.ws.readyState === WebSocket.OPEN] *)
Definition ws_is_open (t : Tool) : bool :=
  match ws t with
  | Some k => match sockets t !! k with Some OPEN => true | _ => false end
  | None => false
  end.

(** [this.ws.send(frame)]: the frame leaves only through an open socket.  On
    [null] and on a connecting socket the call throws, on a closing or closed
    one it does nothing; in all these cases nothing is written and the
    instance is as before. *)
Definition ws_send (frame : string) (t : Tool) : Tool :=
  match ws t with
  | Some k =>
      match sockets t !! k with
      | Some OPEN => set_sent (sent t ++ [(k, frame)]) t
      | _ => t
      end
  | None => t
  end.

(** [socket.close()] *)
Definition close_state (st : ReadyState) : ReadyState :=
  match st with
  | CLOSED => CLOSED
  | _ => CLOSING
  end.

(** [this.pending_requests.get(key)]: only strings are ever stored as keys. *)
Definition pending_get (t : Tool) (key : value) : option nat :=
  match key with
  | VStr k => pending_requests t !! k
  | _ => None
  end.

(** [this.pending_requests.delete(key)] *)
Definition pending_delete (key : value) (t : Tool) : Tool :=
  match key with
  | VStr k => set_pending (delete k (pending_requests t)) t
  | _ => t
  end.

(** *** Methods and listeners *)

(** [connectWebSocket()]: nothing when [this.ws] is set; otherwise a new
    socket, whose listeners are the functions below, or, when the constructor
    of the socket throws, [null] and a retry in 5 seconds. *)
Definition connectWebSocket (t : Tool) : Tool :=
  match ws t with
  | Some _ => t
  | None =>
      if wsUrl_ok t then
        set_ws (Some (length (sockets t)))
               (set_sockets (sockets t ++ [CONNECTING]) t)
      else setTimeout ReconnectTimer (set_ws None t)
  end.

(** The constructor: no socket, an empty table, and a first connection
    unless [fields.override] is set. *)
Definition constructor (override url_ok : bool) : Tool :=
  let t := mkTool url_ok None [] ∅ [] [] [] [] in
  if override then t else connectWebSocket t.

(** The object that the ['open'] listener sends. *)
Definition verify_message : object :=
  object_literal [("sender_type", VStr "plugin");
                  ("type", VStr "connection_verify");
                  ("request_id", VStr "initial-connection")].

(** [send(JSON.stringify(request))]; an object always has a text. *)
Definition serialize (request : object) (send : string -> Tool) (t : Tool) : Tool :=
  match JSON_stringify (VObj request) with
  | Some frame => send frame
  | None => t
  end.

(** The ['open'] listener.  [this.ws] need not be the socket that opened. *)
Definition on_open (t : Tool) : Tool :=
  serialize verify_message (fun frame => ws_send frame t) t.

(** The ['message'] listener; [data] is [JSON.parse(event.data)], [None] when
    it throws.  An exception inside the [try] (the parser's, the TypeError of
    reading a property of [null], the TypeError of [new Error(response.error)]
    on an error that has no string form) is caught and logged: the rest of
    the block, [reject] and [delete] included, does not run. *)
Definition on_message (data : option value) (t : Tool) : Tool :=
  default t
    (response ← data;
     request_id ← get response "request_id";
     if truthy request_id then
       match pending_get t request_id with
       | Some p =>
           error ← get response "error";
           t' ← (if truthy error then
                   message ← to_String error;
                   Some (settle p (ViaResponse response) (Reject message) t)
                 else
                   d ← get response "data";
                   Some (settle p (ViaResponse response) (Resolve d) t));
           Some (pending_delete request_id t')
       | None => Some t
       end
     else Some t).

(** The ['close'] listener. *)
Definition on_close (t : Tool) : Tool :=
  setTimeout ReconnectTimer (set_ws None t).

(** The ['error'] listener only logs. *)
Definition on_error (t : Tool) : Tool := t.

(** The callback of the 30 second timer of a request. *)
Definition on_timeout (request_id : string) (t : Tool) : Tool :=
  match pending_requests t !! request_id with
  | Some p =>
      pending_delete (VStr request_id)
        (settle p ViaTimeout (Reject "Request timeout") t)
  | None => t
  end.

(** [{ request_id, sender_type: 'plugin', type, ...payload }] *)
Definition envelope (request_id type : string) (payload : object) : object :=
  object_literal ([("request_id", VStr request_id);
                   ("sender_type", VStr "plugin");
                   ("type", VStr type)] ++ payload).

(** [sendWebSocketRequest(type, payload)]; [rnd] is the value of
    [Math.random().toString(36).substring(2, 15)] in this call (["i"] when
    [Math.random()] is 0.5, ["9"] when it is 0.25).  Returns the new state and
    the promise. *)
Definition sendWebSocketRequest (type : string) (payload : object) (rnd : string)
    (t : Tool) : Tool * nat :=
  let p := length (requests t) in
  if negb (ws_is_open t) then
    (settle p ViaNotConnected (Reject "WebSocket is not connected")
            (set_requests (requests t ++ [None]) t), p)
  else
    let request_id := rnd in
    let request := envelope request_id type payload in
    let t1 := set_requests (requests t ++ [Some request_id]) t in
    let t2 := set_pending (<[request_id := p]> (pending_requests t1)) t1 in
    let t3 := setTimeout (RequestTimer request_id) t2 in
    (serialize request (fun frame => ws_send frame t3) t3, p).

(** [cleanup()]: [this.ws.close()] and [this.ws = null]. *)
Definition cleanup (t : Tool) : Tool :=
  match ws t with
  | Some k =>
      set_ws None
        (set_sockets (alter close_state k (sockets t)) t)
  | None => t
  end.

(** *** The three operations and the dispatcher *)

(** The argument of [_call], as the zod schema of the tool types it. *)
Record Input : Type := mkInput {
  function : string;
  project_name : option string;
  file_path : option string
}.

(** How the body of an async operation ends its synchronous part: with a
    [throw], or suspended at the [await] of a promise of
    [sendWebSocketRequest]. *)
Inductive Call : Type :=
| Throws (message : string)
| Awaits (p : nat).

(** An optional string argument as a value. *)
Definition arg (a : option string) : value :=
  match a with
  | Some s => VStr s
  | None => VUndefined
  end.

Definition _getProjects (rnd : string) (t : Tool) : Tool * Call :=
  let (t', p) := sendWebSocketRequest "get_projects" [] rnd t in
  (t', Awaits p).

Definition _getProjectTree (projectName : value) (rnd : string) (t : Tool)
    : Tool * Call :=
  let (t', p) :=
    sendWebSocketRequest "get_project_tree"
      (object_literal [("project_name", projectName)]) rnd t in
  (t', Awaits p).

Definition _getProjectFile (projectName filePath : value) (rnd : string)
    (t : Tool) : Tool * Call :=
  let (t', p) :=
    sendWebSocketRequest "get_file"
      (object_literal [("project_name", projectName); ("file_path", filePath)])
      rnd t in
  (t', Awaits p).

Definition _call (input : Input) (rnd : string) (t : Tool) : Tool * Call :=
  if String.eqb (function input) "getProjects" then _getProjects rnd t
  else if String.eqb (function input) "getProjectTree" then
    if negb (truthy (arg (project_name input))) then
      (t, Throws "Project name is required")
    else _getProjectTree (arg (project_name input)) rnd t
  else if String.eqb (function input) "getProjectFile" then
    if negb (truthy (arg (project_name input))) then
      (t, Throws "Project name is required")
    else if negb (truthy (arg (file_path input))) then
      (t, Throws "File path is required")
    else _getProjectFile (arg (project_name input)) (arg (file_path input)) rnd t
  else (t, Throws ("Invalid function: " +:+ function input)).

(** What the promise of an operation has become. *)
Inductive Outcome : Type :=
| Fulfilled (result : option string)
| Rejected (message : string).

(** The rest of an operation's body: [return JSON.stringify(response)] when
    the awaited promise resolves, [throw error] when it rejects; a [throw] in
    an async function rejects its promise.  [None]: still suspended. *)
Definition outcome (t : Tool) (c : Call) : option Outcome :=
  match c with
  | Throws message => Some (Rejected message)
  | Awaits p =>
      match promise_state t p with
      | Some (Resolve response) => Some (Fulfilled (JSON_stringify response))
      | Some (Reject message) => Some (Rejected message)
      | None => None
      end
  end.

(** ** The event loop *)

(** What can run next: a call from the host application, an event of a
    socket, or an armed timer. *)
Inductive Event : Type :=
| CallConnect
| CallSend (type : string) (payload : object) (rnd : string)
| CallTool (input : Input) (rnd : string)
| CallCleanup
| SocketOpen (k : nat)
| SocketMessage (k : nat) (data : option value)
| SocketClosing (k : nat)
| SocketClose (k : nat)
| SocketError (k : nat)
| ReconnectFires
| TimeoutFires (request_id : string).

Fixpoint remove_first (tm : Timer) (ts : list Timer) : list Timer :=
  match ts with
  | [] => []
  | tm' :: ts' => if decide (tm' = tm) then ts' else tm' :: remove_first tm ts'
  end.

Definition armed (tm : Timer) (t : Tool) : bool :=
  bool_decide (tm ∈ timers t).

(** A socket emits ['open'] once, while connecting; ['message'] while open or
    closing; ['close'] once.  Before ['close'] it may enter the closing state
    by itself, with no listener run: when the peer starts the closing
    handshake or the opening handshake is aborted ([SocketClosing]).  A timer
    runs once.  Anything else does not happen and leaves the state as it
    is. *)
Definition step (t : Tool) (e : Event) : Tool :=
  match e with
  | CallConnect => connectWebSocket t
  | CallSend type payload rnd => (sendWebSocketRequest type payload rnd t).1
  | CallTool input rnd => (_call input rnd t).1
  | CallCleanup => cleanup t
  | SocketOpen k =>
      match sockets t !! k with
      | Some CONNECTING => on_open (set_sockets (<[k := OPEN]> (sockets t)) t)
      | _ => t
      end
  | SocketMessage k data =>
      match sockets t !! k with
      | Some OPEN | Some CLOSING => on_message data t
      | _ => t
      end
  | SocketClosing k =>
      match sockets t !! k with
      | Some CONNECTING | Some OPEN =>
          set_sockets (<[k := CLOSING]> (sockets t)) t
      | _ => t
      end
  | SocketClose k =>
      match sockets t !! k with
      | Some CLOSED | None => t
      | Some _ => on_close (set_sockets (<[k := CLOSED]> (sockets t)) t)
      end
  | SocketError k => on_error t
  | ReconnectFires =>
      if armed ReconnectTimer t then
        connectWebSocket (set_timers (remove_first ReconnectTimer (timers t)) t)
      else t
  | TimeoutFires request_id =>
      if armed (RequestTimer request_id) t then
        on_timeout request_id
          (set_timers (remove_first (RequestTimer request_id) (timers t)) t)
      else t
  end.

Definition run (t : Tool) (es : list Event) : Tool := fold_left step es t.

(** ** Vocabulary of the statements *)

(** The text of an object: [JSON.stringify] never answers [undefined] on one. *)
Definition frame_of (request : object) : string :=
  default "" (JSON_stringify (VObj request)).

(** The call that the ['message'] listener makes for a response object;
    [None] when [new Error(response.error)] throws before any call. *)
Definition response_settle (ps : object) : option Settle :=
  if truthy (lookup_prop "error" ps) then Reject <$> to_String (lookup_prop "error" ps)
  else Some (Resolve (lookup_prop "data" ps)).

(** The requests that the three operations issue. *)
Inductive FacadeRequest : string -> object -> Prop :=
| fr_projects : FacadeRequest "get_projects" []
| fr_tree (projectName : value) :
    FacadeRequest "get_project_tree"
      (object_literal [("project_name", projectName)])
| fr_file (projectName filePath : value) :
    FacadeRequest "get_file"
      (object_literal [("project_name", projectName); ("file_path", filePath)]).

(** The envelope as the specification words it, with a [sender_role] field. *)
Definition spec_envelope (request_id type : string) (payload : object) : object :=
  object_literal ([("request_id", VStr request_id);
                   ("sender_role", VStr "plugin");
                   ("type", VStr type)] ++ payload).

(** *** Runs with fresh ids, and what a step changes *)

(** The id that a call draws from [Math.random] is not the key of an entry
    that is still in the table. *)
Definition fresh (t : Tool) (e : Event) : bool :=
  match e with
  | CallSend _ _ rnd | CallTool _ rnd =>
      bool_decide (pending_requests t !! rnd = None)
  | _ => true
  end.

Fixpoint fresh_run (t : Tool) (es : list Event) : bool :=
  match es with
  | [] => true
  | e :: es' => fresh t e && fresh_run (step t e) es'
  end.

(** What a promise's request allows as a call of its [resolve]/[reject]. *)
Definition entry_ok (rq : option string) (c : Cause) (o : Settle) : Prop :=
  match c, rq with
  | ViaResponse r, Some k =>
      exists ps, r = VObj ps /\ lookup_prop "request_id" ps = VStr k
                 /\ k ≠ "" /\ response_settle ps = Some o
  | ViaTimeout, Some k => o = Reject "Request timeout"
  | ViaNotConnected, None => o = Reject "WebSocket is not connected"
  | _, _ => False
  end.

(** The four ways in which a step can touch the requests. *)
Inductive Change (t : Tool) (e : Event) (t' : Tool) : Prop :=
| ch_same :
    pending_requests t' = pending_requests t ->
    requests t' = requests t ->
    settled t' = settled t ->
    (forall k, is_Some (pending_requests t !! k) ->
               RequestTimer k ∈ timers t -> RequestTimer k ∈ timers t') ->
    Change t e t'
| ch_fail :
    pending_requests t' = pending_requests t ->
    requests t' = requests t ++ [None] ->
    settled t'
    = settled t ++ [(length (requests t), ViaNotConnected,
                     Reject "WebSocket is not connected")] ->
    timers t' = timers t ->
    sent t' = sent t ->
    Change t e t'
| ch_send (rnd : string) :
    (fresh t e = true -> pending_requests t !! rnd = None) ->
    pending_requests t' = <[rnd := length (requests t)]> (pending_requests t) ->
    requests t' = requests t ++ [Some rnd] ->
    settled t' = settled t ->
    timers t' = timers t ++ [RequestTimer rnd] ->
    Change t e t'
| ch_settle (k : string) (p : nat) (c : Cause) (o : Settle) :
    pending_requests t !! k = Some p ->
    entry_ok (Some k) c o ->
    pending_requests t' = delete k (pending_requests t) ->
    requests t' = requests t ->
    settled t' = settled t ++ [(p, c, o)] ->
    (forall k', k' ≠ k -> RequestTimer k' ∈ timers t -> RequestTimer k' ∈ timers t') ->
    Change t e t'.

(** *** Invariants of the event loop *)

(** Every entry of the table belongs to the request that created it, and
    every call of a [resolve]/[reject] is one that the request allows. *)
Record wf (t : Tool) : Prop := mk_wf {
  wf_pending : forall k p,
    pending_requests t !! k = Some p -> requests t !! p = Some (Some k);
  wf_settled : forall p c o,
    (p, c, o) ∈ settled t -> exists rq, requests t !! p = Some rq /\ entry_ok rq c o
}.

(** While ids are fresh: an entry of the table has its timer armed and its
    promise untouched, and a promise that has left the table (or never
    entered it) has been settled by exactly one call. *)
Record once (t : Tool) : Prop := mk_once {
  once_pending : forall k p,
    pending_requests t !! k = Some p ->
    RequestTimer k ∈ timers t /\ calls_of p t = [];
  once_request : forall p rq,
    requests t !! p = Some rq ->
    (exists k, rq = Some k /\ pending_requests t !! k = Some p)
    \/ (exists e, calls_of p t = [e])
}.

(** *** Shapes of runs *)

(** A run in which the host never calls [cleanup]. *)
Definition no_cleanup (es : list Event) : bool :=
  forallb (fun e => match e with CallCleanup => false | _ => true end) es.

(** The events whose code contains a [this.ws.send]. *)
Definition writes (e : Event) : bool :=
  match e with
  | SocketOpen _ | CallSend _ _ _ | CallTool _ _ => true
  | _ => false
  end.

(** What the promise of an operation becomes once a call was made on the
    promise it awaits. *)
Definition settle_outcome (o : Settle) : Outcome :=
  match o with
  | Resolve d => Fulfilled (JSON_stringify d)
  | Reject message => Rejected message
  end.

(** [this.ws], when set, is a socket that exists and is not closed. *)
Definition ws_live (t : Tool) : Prop :=
  forall k, ws t = Some k ->
            exists st, sockets t !! k = Some st /\ st ≠ CLOSED.

(** Every socket other than [this.ws] is closed. *)
Definition others_closed (t : Tool) : Prop :=
  forall j st, sockets t !! j = Some st -> st ≠ CLOSED -> ws t = Some j.

(** * WebSocketClientTransportWithHeaders

    The transport that opens a WebSocket with optional HTTP headers and the
    [mcp] subprotocol: its fields, [start], [close], [send] and the four
    handlers that [start] installs on the socket. *)

Module Transport.

(** The second argument of [new WebSocket(url, wsOptions)]. *)
Record SocketOptions : Type := mkOptions {
  protocol : string;
  headers : option (list (string * string))
}.

(** A socket: its ready state, the options it was created with, and the
    promise of the [start] call whose [resolve]/[reject] its handlers use. *)
Record Socket : Type := mkSocket {
  readyState : ReadyState;
  options : SocketOptions;
  starter : nat
}.

(** A call of one of the callbacks that the client may have assigned. *)
Inductive Callback : Type :=
| OnClose
| OnError (message : string)
| OnMessage (message : value).

(** A call of the [resolve] or [reject] of a promise of [start]. *)
Inductive StartSettle : Type :=
| Started
| Failed (message : string).

(** The instance and its environment.

    - [ctor_error]: [Some m] when [new WebSocket(...)] throws an error with
      message [m];
    - [_headers]: [options?.headers], an object from header name to value;
    - [_socket]: the field, an index into [sockets]; [None] for [undefined];
    - [starts]: how many promises [start] has returned; [start_settled]:
      the calls made on them, oldest first;
    - [onclose], [onerror], [onmessage]: whether the callback is assigned;
      [invoked]: the calls made on them, oldest first;
    - [sent]: the frames handed to an open socket, oldest first. *)
Record T : Type := mkT {
  ctor_error : option string;
  _headers : option (list (string * string));
  _socket : option nat;
  sockets : list Socket;
  starts : nat;
  start_settled : list (nat * StartSettle);
  onclose : bool;
  onerror : bool;
  onmessage : bool;
  invoked : list Callback;
  sent : list (nat * string)
}.

(** [new WebSocketClientTransportWithHeaders(url, { headers })] *)
Definition constructor (ctor_error : option string)
    (headers : option (list (string * string))) : T :=
  mkT ctor_error headers None [] 0 [] false false false [] [].

Definition settle_start (p : nat) (o : StartSettle) (t : T) : T :=
  mkT (ctor_error t) (_headers t) (_socket t) (sockets t) (starts t)
      (start_settled t ++ [(p, o)]) (onclose t) (onerror t) (onmessage t)
      (invoked t) (sent t).

Definition invoke (c : Callback) (t : T) : T :=
  mkT (ctor_error t) (_headers t) (_socket t) (sockets t) (starts t)
      (start_settled t) (onclose t) (onerror t) (onmessage t)
      (invoked t ++ [c]) (sent t).

Definition set_sockets (ss : list Socket) (t : T) : T :=
  mkT (ctor_error t) (_headers t) (_socket t) ss (starts t)
      (start_settled t) (onclose t) (onerror t) (onmessage t)
      (invoked t) (sent t).

Definition set_readyState (st : ReadyState) (s : Socket) : Socket :=
  mkSocket st (options s) (starter s).

(** A promise of [start] takes the first call made on it. *)
Definition start_state (t : T) (p : nat) : option StartSettle :=
  snd <$> head (List.filter (fun e => Nat.eqb e.1 p) (start_settled t)).

Definition already_started : string :=
  "WebSocketClientTransportWithHeaders already started! If using Client class, note that connect() calls start() automatically.".

(** [{ protocol: SUBPROTOCOL }], plus [headers] when the transport has
    headers and [Object.keys] of them is not empty. *)
Definition wsOptions (t : T) : SocketOptions :=
  mkOptions "mcp"
    (match _headers t with
     | Some (h :: hs) => Some (h :: hs)
     | _ => None
     end).

(** How [start] returns: by throwing, or with a promise. *)
Inductive StartResult : Type :=
| StartThrows (message : string)
| StartPromise (p : nat).

Definition start (t : T) : T * StartResult :=
  match _socket t with
  | Some _ => (t, StartThrows already_started)
  | None =>
      let p := starts t in
      match ctor_error t with
      | Some m =>
          (mkT (ctor_error t) (_headers t) None (sockets t) (S p)
               (start_settled t ++ [(p, Failed m)])
               (onclose t) (onerror t) (onmessage t) (invoked t) (sent t),
           StartPromise p)
      | None =>
          (mkT (ctor_error t) (_headers t) (Some (length (sockets t)))
               (sockets t ++ [mkSocket CONNECTING (wsOptions t) p]) (S p)
               (start_settled t)
               (onclose t) (onerror t) (onmessage t) (invoked t) (sent t),
           StartPromise p)
      end
  end.

(** [socket.onerror]; [event_text] is [JSON.stringify(event)]. *)
Definition socket_onerror (p : nat) (event_text : string) (t : T) : T :=
  let error := "WebSocket error: " +:+ event_text in
  let t' := settle_start p (Failed error) t in
  if onerror t' then invoke (OnError error) t' else t'.

(** [socket.onopen] *)
Definition socket_onopen (p : nat) (t : T) : T := settle_start p Started t.

(** [socket.onclose] *)
Definition socket_onclose (t : T) : T :=
  if onclose t then invoke OnClose t else t.

(** [socket.onmessage]; [parsed] is
    [JSONRPCMessageSchema.parse(JSON.parse(data))]: the message, or the
    message of the error that one of the two parsers throws. *)
Definition socket_onmessage (parsed : string + value) (t : T) : T :=
  match parsed with
  | inl error => if onerror t then invoke (OnError error) t else t
  | inr message => if onmessage t then invoke (OnMessage message) t else t
  end.

(** [close()]: [this._socket?.close()]; the field keeps the socket. *)
Definition close (t : T) : T :=
  match _socket t with
  | Some k =>
      set_sockets
        (alter (fun s => set_readyState (close_state (readyState s)) s) k
               (sockets t)) t
  | None => t
  end.

(** How the promise of [send] is settled before [send] returns. *)
Inductive SendResult : Type :=
| SendResolved
| SendRejected (message : string).

Definition socket_open (t : T) : option nat :=
  match _socket t with
  | Some k =>
      match sockets t !! k with
      | Some s => match readyState s with OPEN => Some k | _ => None end
      | None => None
      end
  | None => None
  end.

Definition send (message : object) (t : T) : T * SendResult :=
  match socket_open t with
  | None => (t, SendRejected "Not connected")
  | Some k =>
      match JSON_stringify (VObj message) with
      | Some frame =>
          (mkT (ctor_error t) (_headers t) (_socket t) (sockets t) (starts t)
               (start_settled t) (onclose t) (onerror t) (onmessage t)
               (invoked t) (sent t ++ [(k, frame)]),
           SendResolved)
      | None => (t, SendResolved)
      end
  end.

(** What can run next: a call by the client, an assignment of the three
    callbacks, or an event of a socket. *)
Inductive Event : Type :=
| CallStart
| CallClose
| CallSend (message : object)
| Assign (onclose onerror onmessage : bool)
| SocketOpen (k : nat)
| SocketError (k : nat) (event_text : string)
| SocketClosing (k : nat)
| SocketClose (k : nat)
| SocketMessage (k : nat) (parsed : string + value).

(** A socket emits ['open'] once, while connecting; ['message'] while open
    or closing; ['error'] until it is closed; ['close'] once.  Before
    ['close'] it may enter the closing state by itself, with no handler run
    ([SocketClosing]). *)
Definition step (t : T) (e : Event) : T :=
  match e with
  | CallStart => (start t).1
  | CallClose => close t
  | CallSend message => (send message t).1
  | Assign c e m =>
      mkT (ctor_error t) (_headers t) (_socket t) (sockets t) (starts t)
          (start_settled t) c e m (invoked t) (sent t)
  | SocketOpen k =>
      match sockets t !! k with
      | Some s =>
          match readyState s with
          | CONNECTING =>
              socket_onopen (starter s)
                (set_sockets (<[k := set_readyState OPEN s]> (sockets t)) t)
          | _ => t
          end
      | None => t
      end
  | SocketError k event_text =>
      match sockets t !! k with
      | Some s =>
          match readyState s with
          | CLOSED => t
          | _ => socket_onerror (starter s) event_text t
          end
      | None => t
      end
  | SocketClosing k =>
      match sockets t !! k with
      | Some s =>
          match readyState s with
          | CONNECTING | OPEN =>
              set_sockets (<[k := set_readyState CLOSING s]> (sockets t)) t
          | _ => t
          end
      | None => t
      end
  | SocketClose k =>
      match sockets t !! k with
      | Some s =>
          match readyState s with
          | CLOSED => t
          | _ =>
              socket_onclose
                (set_sockets (<[k := set_readyState CLOSED s]> (sockets t)) t)
          end
      | None => t
      end
  | SocketMessage k parsed =>
      match sockets t !! k with
      | Some s =>
          match readyState s with
          | OPEN | CLOSING => socket_onmessage parsed t
          | _ => t
          end
      | None => t
      end
  end.

Definition run (t : T) (es : list Event) : T := fold_left step es t.

(** The inbound messages that passed both parsers, in a list of events. *)
Fixpoint valid_messages (es : list Event) : list value :=
  match es with
  | [] => []
  | SocketMessage _ (inr message) :: es' => message :: valid_messages es'
  | _ :: es' => valid_messages es'
  end.

End Transport.

(** ** Sanity checks on concrete inputs *)

Example stringify_projects :
  JSON_stringify (VArr [VStr "proj1"; VStr "proj2"])
  = Some ("[" +:+ dq +:+ "proj1" +:+ dq +:+ "," +:+ dq +:+ "proj2" +:+ dq +:+ "]").
Proof. reflexivity. Qed.

Example stringify_omits_undefined :
  JSON_stringify (VObj [("a", VUndefined); ("b", VArr [VUndefined; VNum 3 eq_refl])])
  = Some ("{" +:+ dq +:+ "b" +:+ dq +:+ ":[null,3]}").
Proof. reflexivity. Qed.

Example index_keys_first :
  List.map fst (object_literal [("type", VNull); ("7", VNull); ("2", VNull); ("07", VNull)])
  = ["2"; "7"; "type"; "07"].
Proof. reflexivity. Qed.

Example frame_getProjects :
  JSON_stringify (VObj (envelope "i" "get_projects" []))
  = Some ("{" +:+ quote "request_id" +:+ ":" +:+ quote "i" +:+ ","
          +:+ quote "sender_type" +:+ ":" +:+ quote "plugin" +:+ ","
          +:+ quote "type" +:+ ":" +:+ quote "get_projects" +:+ "}").
Proof. reflexivity. Qed.

Example frame_getProjectFile :
  List.map fst
    (envelope "i" "get_file"
       (object_literal [("project_name", VStr "proj1"); ("file_path", VStr "a.py")]))
  = ["request_id"; "sender_type"; "type"; "project_name"; "file_path"].
Proof. reflexivity. Qed.

Example escape_controls :
  quote (String (ascii_of_nat 10) (String (ascii_of_nat 1) "a"))
  = dq +:+ backslash +:+ "n" +:+ backslash +:+ "u0001a" +:+ dq.
Proof. reflexivity. Qed.

Example error_message_of_array :
  to_String (VArr [VNum 4 eq_refl; VNull; VStr "x"]) = Some "4,,x".
Proof. reflexivity. Qed.

Example error_message_throws :
  to_String (VObj [("toString", VNum 1 eq_refl)]) = None
  /\ to_String (VArr [VStr "a"; VObj [("toString", VNull)]]) = None
  /\ to_String (VObj [("valueOf", VNull)]) = Some "[object Object]".
Proof. repeat split. Qed.

(** ** Objects: reading a property of an object literal *)

Section ObjectLiterals.

Implicit Types (ps props : object) (k : string) (v : value).

Lemma owns_lookup_undefined k ps :
  owns k ps = false -> lookup_prop k ps = VUndefined.
Proof.
  induction ps as [|[k' v'] ps IH]; simpl; [done|].
  destruct (String.eqb k' k); simpl; [done|auto].
Qed.

Lemma lookup_overwrite k k' v ps :
  owns k' ps = true ->
  lookup_prop k (overwrite k' v ps)
  = if String.eqb k' k then v else lookup_prop k ps.
Proof.
  induction ps as [|[k0 v0] ps IH]; simpl; [done|].
  destruct (String.eqb k0 k') eqn:E0; simpl.
  - apply String.eqb_eq in E0 as ->. intros _.
    destruct (String.eqb k' k); done.
  - intros Hown. destruct (String.eqb k0 k) eqn:E1.
    + apply String.eqb_eq in E1 as ->.
      rewrite String.eqb_sym, E0. done.
    + auto.
Qed.

Lemma lookup_insert_index k k' n v ps :
  owns k' ps = false ->
  lookup_prop k (insert_index n k' v ps)
  = if String.eqb k' k then v else lookup_prop k ps.
Proof.
  induction ps as [|[k0 v0] ps IH]; simpl; [done|].
  destruct (String.eqb k0 k') eqn:E0; simpl; [done|]. intros Hown.
  destruct (array_index k0) as [n'|]; [destruct (n <? n')%N|]; simpl; try done.
  destruct (String.eqb k0 k) eqn:E1; [|auto].
  apply String.eqb_eq in E1 as ->. rewrite String.eqb_sym, E0. done.
Qed.

Lemma lookup_append k k' v ps :
  owns k' ps = false ->
  lookup_prop k (ps ++ [(k', v)])
  = if String.eqb k' k then v else lookup_prop k ps.
Proof.
  induction ps as [|[k0 v0] ps IH]; simpl; [done|].
  destruct (String.eqb k0 k') eqn:E0; simpl; [done|]. intros Hown.
  destruct (String.eqb k0 k) eqn:E1; [|auto].
  apply String.eqb_eq in E1 as ->. rewrite String.eqb_sym, E0. done.
Qed.

(** Defining a property changes what that key reads and nothing else. *)
Lemma lookup_define_prop k k' v ps :
  lookup_prop k (define_prop ps (k', v))
  = if String.eqb k' k then v else lookup_prop k ps.
Proof.
  unfold define_prop; simpl. destruct (owns k' ps) eqn:Hown.
  - by apply lookup_overwrite.
  - unfold create_prop. destruct (array_index k').
    + by apply lookup_insert_index.
    + by apply lookup_append.
Qed.

(** A spread that does not own [k] leaves property [k] as it was. *)
Lemma lookup_spread k props ps :
  owns k props = false ->
  lookup_prop k (fold_left define_prop props ps) = lookup_prop k ps.
Proof.
  revert ps. induction props as [|[k' v'] props IH]; simpl; [done|].
  intros ps Hown. apply orb_false_elim in Hown as [Hk Hown].
  rewrite IH by done. rewrite lookup_define_prop, Hk. done.
Qed.

Lemma lookup_envelope k request_id type payload :
  owns k payload = false ->
  lookup_prop k (envelope request_id type payload)
  = lookup_prop k [("request_id", VStr request_id);
                   ("sender_type", VStr "plugin");
                   ("type", VStr type)].
Proof.
  intros Hown. unfold envelope, object_literal.
  rewrite fold_left_app. rewrite lookup_spread by done. done.
Qed.

End ObjectLiterals.

Lemma JSON_stringify_object (request : object) :
  JSON_stringify (VObj request) = Some (frame_of request).
Proof. reflexivity. Qed.

Lemma serialize_object (request : object) (send : string -> Tool) (t : Tool) :
  serialize request send t = send (frame_of request).
Proof. reflexivity. Qed.

(** ** What each handler does to the state *)

Lemma truthy_string (k : string) : truthy (VStr k) = true <-> k ≠ "".
Proof.
  simpl. destruct (String.eqb_spec k ""); simpl; split; congruence.
Qed.

Lemma on_message_match (ps : object) (k : string) (p : nat) (o : Settle)
    (t : Tool) :
  lookup_prop "request_id" ps = VStr k -> k ≠ "" ->
  pending_requests t !! k = Some p ->
  response_settle ps = Some o ->
  on_message (Some (VObj ps)) t
  = set_pending (delete k (pending_requests t))
      (settle p (ViaResponse (VObj ps)) o t).
Proof.
  intros Hid Hk Hp Ho. unfold on_message, response_settle in *; simpl.
  rewrite Hid. apply truthy_string in Hk. rewrite Hk. simpl. rewrite Hp. simpl.
  destruct (truthy (lookup_prop "error" ps)).
  - destruct (to_String (lookup_prop "error" ps)); simpl in *; [|done].
    by injection Ho as <-.
  - by injection Ho as <-.
Qed.

(** The listener throws before it settles or deletes anything. *)
Lemma on_message_throws (ps : object) (t : Tool) :
  response_settle ps = None -> on_message (Some (VObj ps)) t = t.
Proof.
  intros Ho. unfold on_message, response_settle in *; simpl.
  destruct (truthy (lookup_prop "error" ps)); [|done].
  destruct (to_String (lookup_prop "error" ps)); [done|].
  repeat case_match; simpl; done.
Qed.

Lemma on_message_cases (data : option value) (t : Tool) :
  on_message data t = t
  \/ exists ps k p o,
      data = Some (VObj ps) /\ lookup_prop "request_id" ps = VStr k /\ k ≠ ""
      /\ pending_requests t !! k = Some p /\ response_settle ps = Some o.
Proof.
  destruct data as [response|]; [|by left].
  destruct response as [| |b|z Hz|s|xs|ps]; try by left.
  destruct (response_settle ps) as [o|] eqn:Ho;
    [|left; by apply on_message_throws].
  destruct (lookup_prop "request_id" ps) as [| |b|z Hz|k|xs|ps'] eqn:Hid;
    try (left; unfold on_message; simpl; rewrite Hid; simpl;
         by repeat case_match).
  destruct (truthy (VStr k)) eqn:Hk.
  - destruct (pending_requests t !! k) as [p|] eqn:Hp.
    + right. exists ps, k, p, o. by rewrite <- truthy_string.
    + left. unfold on_message; simpl. rewrite Hid, Hk. simpl. by rewrite Hp.
  - left. unfold on_message; simpl. by rewrite Hid, Hk.
Qed.


Lemma on_timeout_match (k : string) (p : nat) (t : Tool) :
  pending_requests t !! k = Some p ->
  on_timeout k t
  = set_pending (delete k (pending_requests t))
      (settle p ViaTimeout (Reject "Request timeout") t).
Proof. intros Hp. unfold on_timeout. by rewrite Hp. Qed.

Lemma on_timeout_absent (k : string) (t : Tool) :
  pending_requests t !! k = None -> on_timeout k t = t.
Proof. intros Hp. unfold on_timeout. by rewrite Hp. Qed.

Lemma ws_is_open_spec (t : Tool) :
  ws_is_open t = true <-> exists k, ws t = Some k /\ sockets t !! k = Some OPEN.
Proof.
  unfold ws_is_open. split.
  - destruct (ws t) as [k|]; [|done].
    destruct (sockets t !! k) as [[]|] eqn:E; try done. eauto.
  - intros (k & -> & ->). done.
Qed.

Lemma send_closed (type : string) (payload : object) (rnd : string) (t : Tool) :
  ws_is_open t = false ->
  sendWebSocketRequest type payload rnd t
  = (settle (length (requests t)) ViaNotConnected
       (Reject "WebSocket is not connected")
       (set_requests (requests t ++ [None]) t),
     length (requests t)).
Proof. intros H. unfold sendWebSocketRequest. by rewrite H. Qed.

Lemma send_open (type : string) (payload : object) (rnd : string) (k : nat)
    (t : Tool) :
  ws t = Some k -> sockets t !! k = Some OPEN ->
  sendWebSocketRequest type payload rnd t
  = (set_sent (sent t ++ [(k, frame_of (envelope rnd type payload))])
       (setTimeout (RequestTimer rnd)
          (set_pending (<[rnd := length (requests t)]> (pending_requests t))
             (set_requests (requests t ++ [Some rnd]) t))),
     length (requests t)).
Proof.
  intros Hws Hk. unfold sendWebSocketRequest.
  assert (ws_is_open t = true) as -> by (apply ws_is_open_spec; eauto).
  simpl. rewrite serialize_object. unfold ws_send; simpl. by rewrite Hws, Hk.
Qed.

(** ** One step of the event loop, seen from the pending table *)

Lemma elem_of_remove_first_ne (tm tm' : Timer) (ts : list Timer) :
  tm ≠ tm' -> tm ∈ ts -> tm ∈ remove_first tm' ts.
Proof.
  intros Hne. induction ts as [|x ts IH]; simpl; [done|].
  rewrite elem_of_cons. intros [->|Hin].
  - rewrite decide_False by done. left.
  - destruct (decide (x = tm')); [done|]. right. auto.
Qed.

Lemma send_change (e : Event) (type : string) (payload : object) (rnd : string)
    (t : Tool) :
  (fresh t e = true -> pending_requests t !! rnd = None) ->
  Change t e (sendWebSocketRequest type payload rnd t).1.
Proof.
  intros Hfresh. destruct (ws_is_open t) eqn:Hopen.
  - apply ws_is_open_spec in Hopen as (k & Hws & Hk).
    rewrite (send_open _ _ _ k) by done. by apply (ch_send _ _ _ rnd).
  - rewrite send_closed by done. by apply ch_fail.
Qed.

Lemma call_cases (input : Input) (rnd : string) (t : Tool) :
  (exists message, _call input rnd t = (t, Throws message))
  \/ (exists type payload,
        FacadeRequest type payload
        /\ _call input rnd t
           = ((sendWebSocketRequest type payload rnd t).1,
              Awaits (sendWebSocketRequest type payload rnd t).2)).
Proof.
  unfold _call, _getProjects, _getProjectTree, _getProjectFile.
  repeat (case_match; try (left; eexists; reflexivity)).
  all: right; eexists _, _; split;
    last (match goal with
          | H : sendWebSocketRequest _ _ _ _ = _ |- _ => by rewrite H
          end).
  all: constructor.
Qed.

Lemma call_change (input : Input) (rnd : string) (t : Tool) :
  Change t (CallTool input rnd) (_call input rnd t).1.
Proof.
  destruct (call_cases input rnd t) as [[m ->]|(type & payload & _ & ->)]; simpl.
  - by apply ch_same.
  - apply send_change. simpl. intros H. by apply bool_decide_eq_true in H.
Qed.

Lemma step_change (t : Tool) (e : Event) : Change t e (step t e).
Proof.
  destruct e as [|type payload rnd|input rnd| |k|k data|k|k|k| |k]; simpl.
  - apply ch_same; unfold connectWebSocket; repeat case_match; simpl; try done.
    intros k _ Hin. apply elem_of_app. by left.
  - apply send_change. simpl. intros H. by apply bool_decide_eq_true in H.
  - apply call_change.
  - apply ch_same; unfold cleanup; by case_match.
  - repeat case_match; try by apply ch_same.
    apply ch_same; unfold on_open, serialize, ws_send; simpl;
      by repeat case_match.
  - assert (Change t (SocketMessage k data) (on_message data t)) as Hmsg.
    { destruct (on_message_cases data t)
        as [->|(ps & id & p & o & -> & Hid & Hne & Hp & Ho)]; [by apply ch_same|].
      rewrite (on_message_match ps id p o) by done.
      apply (ch_settle _ _ _ id p (ViaResponse (VObj ps)) o);
        simpl; try done.
      exists ps. done. }
    repeat case_match; try done; by apply ch_same.
  - repeat case_match; by apply ch_same.
  - repeat case_match; try by apply ch_same.
    all: apply ch_same; simpl; try done;
      intros id _ Hin; apply elem_of_app; by left.
  - by apply ch_same.
  - case_match; [|by apply ch_same].
    apply ch_same; unfold connectWebSocket; simpl; repeat case_match; simpl;
      try done.
    all: intros id _ Hin; try (apply elem_of_app; left);
      by apply elem_of_remove_first_ne.
  - case_match; [|by apply ch_same].
    destruct (pending_requests t !! k) as [p|] eqn:Hp.
    + rewrite (on_timeout_match k p) by done.
      apply (ch_settle _ _ _ k p ViaTimeout (Reject "Request timeout"));
        simpl; try done.
      intros k' Hne Hin. apply elem_of_remove_first_ne; [congruence|done].
    + rewrite on_timeout_absent by done.
      apply ch_same; simpl; try done.
      intros k' [p' Hp'] Hin. apply elem_of_remove_first_ne; [|done].
      intros [= ->]. congruence.
Qed.

(** ** Invariants of the event loop *)

Lemma calls_of_same (p : nat) (t t' : Tool) :
  settled t' = settled t -> calls_of p t' = calls_of p t.
Proof. unfold calls_of. by intros ->. Qed.

Lemma calls_of_snoc (p q : nat) (c : Cause) (o : Settle) (t t' : Tool) :
  settled t' = settled t ++ [(q, c, o)] ->
  calls_of p t' = calls_of p t ++ (if Nat.eqb q p then [(q, c, o)] else []).
Proof. unfold calls_of. intros ->. rewrite List.filter_app. done. Qed.

Lemma calls_of_elem (p : nat) (e : nat * Cause * Settle) (t : Tool) :
  e ∈ calls_of p t <-> e ∈ settled t /\ e.1.1 = p.
Proof.
  unfold calls_of. rewrite !list_elem_of_In, List.filter_In, Nat.eqb_eq. done.
Qed.

Lemma calls_of_unborn (p : nat) (t : Tool) :
  wf t -> length (requests t) <= p -> calls_of p t = [].
Proof.
  intros Hwf Hp. destruct (calls_of p t) as [|[[q c] o] l] eqn:E; [done|].
  assert ((q, c, o) ∈ calls_of p t) as Hin by (rewrite E; left).
  apply calls_of_elem in Hin as [Hin Hq]. simpl in Hq. subst q.
  apply (wf_settled _ Hwf) in Hin as (rq & Hrq & _).
  apply lookup_lt_Some in Hrq. lia.
Qed.

Lemma wf_step (t : Tool) (e : Event) : wf t -> wf (step t e).
Proof.
  intros [Hpend Hset].
  destruct (step_change t e)
    as [Hp Hr Hs _|Hp Hr Hs _ _|rnd _ Hp Hr Hs _|k p c o Hk Hok Hp Hr Hs _];
    split; rewrite ?Hp, ?Hr, ?Hs.
  - done.
  - done.
  - intros k p Hk. apply lookup_app_l_Some. auto.
  - intros p c o [Hin|Hin%list_elem_of_singleton]%elem_of_app.
    + destruct (Hset p c o Hin) as (rq & Hrq & Hok). exists rq.
      split; [by apply lookup_app_l_Some|done].
    + injection Hin as -> -> ->. exists None. split; [|done].
      by rewrite list_lookup_middle.
  - intros k p. rewrite lookup_insert. case_decide as Hk.
    + intros [= <-]. subst k. by rewrite list_lookup_middle.
    + intros Hin. apply lookup_app_l_Some. auto.
  - intros p c o Hin. destruct (Hset p c o Hin) as (rq & Hrq & Hok).
    exists rq. split; [by apply lookup_app_l_Some|done].
  - intros k' p' [_ Hin]%lookup_delete_Some. auto.
  - intros p' c' o' [Hin|Hin%list_elem_of_singleton]%elem_of_app; [auto|].
    injection Hin as -> -> ->. exists (Some k). auto.
Qed.

Lemma once_step (t : Tool) (e : Event) :
  wf t -> fresh t e = true -> once t -> once (step t e).
Proof.
  intros Hwf Hfresh [Hpend Hreq]. pose proof (wf_pending _ Hwf) as Hown.
  destruct (step_change t e)
    as [Hp Hr Hs Ht|Hp Hr Hs Ht _|rnd Hnew Hp Hr Hs Ht
       |k p c o Hk Hok Hp Hr Hs Ht]; split.
  - intros k p. rewrite Hp, (calls_of_same _ _ _ Hs). intros Hk.
    destruct (Hpend k p Hk). split; [|done]. apply Ht; [|done]. by exists p.
  - intros p rq. rewrite Hp, Hr, (calls_of_same _ _ _ Hs). auto.
  - intros k p. rewrite Hp, Ht. intros Hk. destruct (Hpend k p Hk) as [? Hc].
    split; [done|]. rewrite (calls_of_snoc _ _ _ _ _ _ Hs), Hc.
    apply Hown, lookup_lt_Some in Hk.
    destruct (Nat.eqb_spec (length (requests t)) p); [lia|done].
  - intros p rq. rewrite Hp, Hr, (calls_of_snoc _ _ _ _ _ _ Hs).
    intros Hin. destruct (decide (p < length (requests t))) as [Hlt|Hge].
    + rewrite lookup_app_l in Hin by done.
      destruct (Nat.eqb_spec (length (requests t)) p); [lia|].
      rewrite app_nil_r. auto.
    + right. apply lookup_lt_Some in Hin as Hlen.
      rewrite length_app in Hlen; simpl in Hlen.
      assert (p = length (requests t)) as -> by lia.
      rewrite Nat.eqb_refl, calls_of_unborn by (done || lia). eauto.
  - intros k p. rewrite Hp, Ht, (calls_of_same _ _ _ Hs), lookup_insert.
    case_decide as Hk.
    + intros [= <-]. subst k. split; [apply elem_of_app; right; left|].
      by apply calls_of_unborn.
    + intros Hin. destruct (Hpend k p Hin). split; [|done].
      apply elem_of_app. by left.
  - intros p rq. rewrite Hp, Hr, (calls_of_same _ _ _ Hs).
    intros Hin. destruct (decide (p < length (requests t))) as [Hlt|Hge].
    + rewrite lookup_app_l in Hin by done.
      destruct (Hreq p rq Hin) as [(k & -> & Hk)|]; [|by right].
      left. exists k. split; [done|]. rewrite lookup_insert_ne; [done|].
      intros ->. rewrite Hnew in Hk; done.
    + left. apply lookup_lt_Some in Hin as Hlen.
      rewrite length_app in Hlen; simpl in Hlen.
      assert (p = length (requests t)) as -> by lia.
      rewrite list_lookup_middle in Hin by done. injection Hin as <-.
      exists rnd. by rewrite lookup_insert_eq.
  - intros k' p'. rewrite Hp, (calls_of_snoc _ _ _ _ _ _ Hs).
    intros [Hne Hk']%lookup_delete_Some. destruct (Hpend k' p' Hk') as [? Hc].
    split; [by apply Ht|]. rewrite Hc.
    destruct (Nat.eqb_spec p p') as [->|]; [|done].
    apply Hown in Hk, Hk'. congruence.
  - intros p' rq. rewrite Hp, Hr, (calls_of_snoc _ _ _ _ _ _ Hs). intros Hin.
    destruct (Nat.eqb_spec p p') as [->|Hne].
    + right. destruct (Hpend k p' Hk) as [_ ->]. eauto.
    + rewrite app_nil_r.
      destruct (Hreq p' rq Hin) as [(k' & -> & Hk')|]; [|by right].
      left. exists k'. split; [done|]. rewrite lookup_delete_ne; [done|].
      intros ->. congruence.
Qed.

Lemma constructor_wf (override url_ok : bool) : wf (constructor override url_ok).
Proof.
  unfold constructor, connectWebSocket.
  destruct override, url_ok; split; simpl; intros *;
    (by rewrite lookup_empty) || (by intros ?%elem_of_nil).
Qed.

Lemma constructor_once (override url_ok : bool) :
  once (constructor override url_ok).
Proof.
  unfold constructor, connectWebSocket.
  destruct override, url_ok; split; simpl; intros *;
    (by rewrite lookup_empty) || (by rewrite lookup_nil).
Qed.

Lemma wf_run (es : list Event) (t : Tool) : wf t -> wf (run t es).
Proof.
  revert t. induction es as [|e es IH]; simpl; [done|].
  intros t Hwf. apply IH. by apply wf_step.
Qed.

Lemma once_run (es : list Event) (t : Tool) :
  wf t -> once t -> fresh_run t es = true -> once (run t es).
Proof.
  revert t. induction es as [|e es IH]; simpl; [done|].
  intros t Hwf Honce [Hf Hfs]%andb_prop.
  apply IH; [by apply wf_step|by apply once_step|done].
Qed.

(** ** The outbound envelope *)

Lemma facade_payload_keys (type : string) (payload : object) (k : string) :
  FacadeRequest type payload ->
  owns k payload = true -> k = "project_name" \/ k = "file_path".
Proof.
  intros [|pn|pn fp].
  - done.
  - change (owns k (object_literal [("project_name", pn)]))
      with (String.eqb "project_name" k || false).
    rewrite orb_false_r. intros ?%String.eqb_eq. by left.
  - change (owns k (object_literal [("project_name", pn); ("file_path", fp)]))
      with (String.eqb "project_name" k || (String.eqb "file_path" k || false)).
    rewrite orb_false_r.
    intros [?%String.eqb_eq|?%String.eqb_eq]%orb_prop; auto.
Qed.

Lemma facade_payload_not_owns (type : string) (payload : object) (k : string) :
  FacadeRequest type payload ->
  k ≠ "project_name" -> k ≠ "file_path" -> owns k payload = false.
Proof.
  intros Hreq H1 H2. destruct (owns k payload) eqn:E; [|done].
  destruct (facade_payload_keys _ _ _ Hreq E); done.
Qed.

Lemma verify_message_sent (t : Tool) (k : nat) :
  ws t = Some k -> sockets t !! k = Some CONNECTING ->
  sent (step t (SocketOpen k)) = sent t ++ [(k, frame_of verify_message)].
Proof.
  intros Hws Hk. simpl. rewrite Hk. unfold on_open.
  rewrite serialize_object. unfold ws_send. simpl. rewrite Hws.
  rewrite list_lookup_insert_eq by (by apply lookup_lt_Some in Hk). done.
Qed.

(** The spread is applied last: a payload that owns a fixed field replaces it. *)
Example spread_overrides :
  lookup_prop "request_id" (envelope "i" "get_file" [("request_id", VStr "x")])
  = VStr "x".
Proof. reflexivity. Qed.

(** C1, as the specification states it, fails: the frame that [getProjects]
    writes to an open socket is not the serialization of an envelope with a
    [sender_role] field, the envelope has no such field at all, and a payload
    that owns [sender_type] replaces the fixed value. *)
Lemma sender_role_counterexample :
  let t := run (constructor false true) [SocketOpen 0] in
  sent (step t (CallTool (mkInput "getProjects" None None) "i"))
  ≠ sent t ++ [(0, frame_of (spec_envelope "i" "get_projects" []))]
  /\ lookup_prop "sender_role" (envelope "i" "get_projects" []) = VUndefined
  /\ lookup_prop "sender_type"
       (envelope "i" "get_projects" [("sender_type", VStr "x")]) = VStr "x".
Proof.
  split; [|split; reflexivity].
  vm_compute. intros H. discriminate H.
Qed.

(** C1 (amended): a request sent through an open socket writes exactly one
    frame, the serialization of
    [{ request_id, sender_type: "plugin", type, ...payload }]; when the payload
    owns no [sender_type] of its own, as in the three operations of the
    facade, the envelope carries [sender_type] with the value ["plugin"]
    (and no [sender_role]); the verification message written on ['open']
    carries the same field. *)
Theorem outbound_envelope (t : Tool) (type : string) (payload : object)
    (rnd : string) (k : nat) :
  ws t = Some k -> sockets t !! k = Some OPEN ->
  let request :=
    object_literal ([("request_id", VStr rnd); ("sender_type", VStr "plugin");
                     ("type", VStr type)] ++ payload) in
  (exists frame,
      JSON_stringify (VObj request) = Some frame
      /\ sent (sendWebSocketRequest type payload rnd t).1 = sent t ++ [(k, frame)])
  /\ (owns "sender_type" payload = false ->
      lookup_prop "sender_type" request = VStr "plugin")
  /\ (forall input p,
        (_call input rnd t).2 = Awaits p ->
        exists type' payload' frame,
          JSON_stringify (VObj (envelope rnd type' payload')) = Some frame
          /\ sent (_call input rnd t).1 = sent t ++ [(k, frame)]
          /\ lookup_prop "sender_type" (envelope rnd type' payload') = VStr "plugin"
          /\ lookup_prop "sender_role" (envelope rnd type' payload') = VUndefined)
  /\ (forall t0 k0,
        ws t0 = Some k0 -> sockets t0 !! k0 = Some CONNECTING ->
        exists frame,
          JSON_stringify (VObj verify_message) = Some frame
          /\ sent (step t0 (SocketOpen k0)) = sent t0 ++ [(k0, frame)]
          /\ lookup_prop "sender_type" verify_message = VStr "plugin").
Proof.
  intros Hws Hk request. repeat apply conj.
  - exists (frame_of request). split; [done|].
    by rewrite (send_open _ _ _ k).
  - intros Hown. by apply (lookup_envelope "sender_type" rnd type payload).
  - intros input p Hp.
    destruct (call_cases input rnd t)
      as [[m Hm]|(type' & payload' & Hreq & Hcall)].
    { rewrite Hm in Hp. done. }
    exists type', payload', (frame_of (envelope rnd type' payload')).
    rewrite Hcall. simpl.
    rewrite (send_open _ _ _ k) by done. simpl. split; [done|]. split; [done|].
    rewrite !lookup_envelope by (by apply (facade_payload_not_owns type')).
    done.
  - intros t0 k0 Hws0 Hk0. exists (frame_of verify_message).
    split; [done|]. split; [|done]. by apply verify_message_sent.
Qed.

Lemma outbound_envelope_witness :
  let t := run (constructor false true) [SocketOpen 0] in
  ws t = Some 0 /\ sockets t !! 0 = Some OPEN
  /\ exists frame,
      JSON_stringify (VObj (envelope "i" "get_projects" [])) = Some frame
      /\ sent (sendWebSocketRequest "get_projects" [] "i" t).1
         = sent t ++ [(0, frame)].
Proof.
  split; [reflexivity|]. split; [reflexivity|].
  exact (proj1 (outbound_envelope (run (constructor false true) [SocketOpen 0])
                  "get_projects" [] "i" 0 eq_refl eq_refl)).
Defined.

(** C10: for a request issued by one of the three operations, the payload
    owns no key other than [project_name] and [file_path], so the fixed
    fields survive the spread: the [request_id] of the envelope written to
    the socket is the key under which the promise is stored in the table,
    [sender_type] is ["plugin"] and [type] is the type of the operation. *)
Theorem facade_request_id (t : Tool) (input : Input) (rnd : string) (k p : nat) :
  ws t = Some k -> sockets t !! k = Some OPEN ->
  (_call input rnd t).2 = Awaits p ->
  exists type payload frame,
    JSON_stringify (VObj (envelope rnd type payload)) = Some frame
    /\ sent (_call input rnd t).1 = sent t ++ [(k, frame)]
    /\ pending_requests (_call input rnd t).1 !! rnd = Some p
    /\ (forall key, owns key payload = true ->
                    key = "project_name" \/ key = "file_path")
    /\ lookup_prop "request_id" (envelope rnd type payload) = VStr rnd
    /\ lookup_prop "sender_type" (envelope rnd type payload) = VStr "plugin"
    /\ lookup_prop "type" (envelope rnd type payload) = VStr type.
Proof.
  intros Hws Hk Hp.
  destruct (call_cases input rnd t)
    as [[m Hm]|(type & payload & Hreq & Hcall)].
  { rewrite Hm in Hp. done. }
  rewrite Hcall in Hp |- *. simpl in *.
  rewrite (send_open _ _ _ k) in Hp |- * by done. simpl in *.
  injection Hp as <-.
  exists type, payload, (frame_of (envelope rnd type payload)).
  repeat split.
  - by rewrite lookup_insert_eq.
  - intros key. by apply facade_payload_keys with (type := type).
  - by rewrite lookup_envelope by (by apply (facade_payload_not_owns type)).
  - by rewrite lookup_envelope by (by apply (facade_payload_not_owns type)).
  - by rewrite lookup_envelope by (by apply (facade_payload_not_owns type)).
Qed.

Lemma facade_request_id_witness :
  let t := run (constructor false true) [SocketOpen 0] in
  let input := mkInput "getProjectFile" (Some "proj1") (Some "a.py") in
  exists type payload frame,
    JSON_stringify (VObj (envelope "i" type payload)) = Some frame
    /\ sent (_call input "i" t).1 = sent t ++ [(0, frame)]
    /\ pending_requests (_call input "i" t).1 !! "i" = Some 0
    /\ (forall key, owns key payload = true ->
                    key = "project_name" \/ key = "file_path")
    /\ lookup_prop "request_id" (envelope "i" type payload) = VStr "i"
    /\ lookup_prop "sender_type" (envelope "i" type payload) = VStr "plugin"
    /\ lookup_prop "type" (envelope "i" type payload) = VStr type.
Proof.
  exact (facade_request_id (run (constructor false true) [SocketOpen 0])
           (mkInput "getProjectFile" (Some "proj1") (Some "a.py")) "i" 0 0
           eq_refl eq_refl eq_refl).
Defined.

(** ** Failing fast *)

Lemma promise_state_unborn (t t' : Tool) (c : Cause) (o : Settle) :
  wf t ->
  settled t' = settled t ++ [(length (requests t), c, o)] ->
  promise_state t' (length (requests t)) = Some o.
Proof.
  intros Hwf Hs. unfold promise_state.
  rewrite (calls_of_snoc _ _ _ _ _ _ Hs), Nat.eqb_refl.
  rewrite calls_of_unborn by done. done.
Qed.

(** C7: when [this.ws] is [null] or its socket is not open, the promise of
    [sendWebSocketRequest] is already rejected with the not-connected error
    when the call returns; no frame was sent, no entry was added to the
    table and no timer was armed.  The same holds for a call of the
    dispatcher, whose promise is rejected by that error or by a validation
    error. *)
Theorem not_connected_fast_fail (override url_ok : bool) (es : list Event)
    (type : string) (payload : object) (rnd : string) :
  let t := run (constructor override url_ok) es in
  (ws t = None \/ exists k, ws t = Some k /\ sockets t !! k ≠ Some OPEN) ->
  (let r := sendWebSocketRequest type payload rnd t in
   promise_state r.1 r.2 = Some (Reject "WebSocket is not connected")
   /\ sent r.1 = sent t
   /\ pending_requests r.1 = pending_requests t
   /\ timers r.1 = timers t)
  /\ (forall input,
        let r := _call input rnd t in
        (exists message,
            outcome r.1 r.2 = Some (Rejected message)
            /\ (r.2 = Throws message \/ message = "WebSocket is not connected"))
        /\ sent r.1 = sent t
        /\ pending_requests r.1 = pending_requests t
        /\ timers r.1 = timers t).
Proof.
  intros t Hclosed.
  assert (wf t) as Hwf by apply wf_run, constructor_wf.
  assert (ws_is_open t = false) as Hopen.
  { destruct (ws_is_open t) eqn:E; [|done].
    apply ws_is_open_spec in E as (k & Hws & Hk).
    destruct Hclosed as [?|(k' & ? & ?)]; congruence. }
  assert (forall ty pl,
             let r := sendWebSocketRequest ty pl rnd t in
             promise_state r.1 r.2 = Some (Reject "WebSocket is not connected")
             /\ sent r.1 = sent t
             /\ pending_requests r.1 = pending_requests t
             /\ timers r.1 = timers t) as Hsend.
  { intros ty pl. rewrite send_closed by done. simpl.
    split; [|done].
    by apply (promise_state_unborn t _ ViaNotConnected). }
  split; [apply Hsend|].
  intros input.
  destruct (call_cases input rnd t) as [[m ->]|(ty & pl & _ & ->)]; simpl.
  - split; [|done]. exists m. auto.
  - destruct (Hsend ty pl) as (Hp & ?). split; [|done].
    exists "WebSocket is not connected". rewrite Hp. auto.
Qed.

Lemma not_connected_fast_fail_witness :
  let t := run (constructor false true) [] in
  (ws t = None \/ exists k, ws t = Some k /\ sockets t !! k ≠ Some OPEN)
  /\ let r := sendWebSocketRequest "get_projects" [] "i" t in
     promise_state r.1 r.2 = Some (Reject "WebSocket is not connected")
     /\ sent r.1 = sent t
     /\ pending_requests r.1 = pending_requests t
     /\ timers r.1 = timers t.
Proof.
  assert (let t := run (constructor false true) [] in
          ws t = None \/ exists k, ws t = Some k /\ sockets t !! k ≠ Some OPEN)
    as H.
  { right. exists 0. split; [reflexivity|]. simpl. discriminate. }
  split; [exact H|].
  exact (proj1 (not_connected_fast_fail false true [] "get_projects" [] "i" H)).
Defined.

(** ** Validation in the dispatcher *)

(** C8: when the file operation is selected, the project name is checked
    first and the file path second; a missing or empty project name fails
    with the project-name error whatever the file path is, a missing or
    empty file path under a non-empty project name fails with the file-path
    error, and in both cases the call ends in the [throw] with the state
    untouched: nothing was sent, stored or armed. *)
Theorem validation_order (t : Tool) (input : Input) (rnd : string) :
  function input = "getProjectFile" ->
  (project_name input = None \/ project_name input = Some "" ->
   _call input rnd t = (t, Throws "Project name is required"))
  /\ (forall name,
        project_name input = Some name -> name ≠ "" ->
        file_path input = None \/ file_path input = Some "" ->
        _call input rnd t = (t, Throws "File path is required")).
Proof.
  intros Hf. unfold _call. rewrite Hf.
  change (String.eqb "getProjectFile" "getProjects") with false.
  change (String.eqb "getProjectFile" "getProjectTree") with false.
  change (String.eqb "getProjectFile" "getProjectFile") with true.
  cbv iota. split.
  - intros [->| ->]; reflexivity.
  - intros name -> Hname%truthy_string Hpath.
    cbn [arg]. rewrite Hname. cbn [negb].
    destruct Hpath as [->| ->]; reflexivity.
Qed.

Lemma validation_order_witness :
  let t := run (constructor false true) [SocketOpen 0] in
  _call (mkInput "getProjectFile" None None) "i" t
  = (t, Throws "Project name is required")
  /\ _call (mkInput "getProjectFile" (Some "proj1") (Some "")) "i" t
     = (t, Throws "File path is required").
Proof.
  split.
  - exact (proj1 (validation_order (run (constructor false true) [SocketOpen 0])
                    (mkInput "getProjectFile" None None) "i" eq_refl)
             (or_introl eq_refl)).
  - refine (proj2 (validation_order (run (constructor false true) [SocketOpen 0])
                     (mkInput "getProjectFile" (Some "proj1") (Some "")) "i"
                     eq_refl)
              "proj1" eq_refl _ (or_intror eq_refl)).
    discriminate.
Defined.

(** ** Exactly one completion per request *)

Lemma reachable_wf (override url_ok : bool) (es : list Event) :
  wf (run (constructor override url_ok) es).
Proof. apply wf_run, constructor_wf. Qed.

Lemma reachable_once (override url_ok : bool) (es : list Event) :
  fresh_run (constructor override url_ok) es = true ->
  once (run (constructor override url_ok) es).
Proof. apply once_run; [apply constructor_wf|apply constructor_once]. Qed.

(** The only call on a promise that has left the table. *)
Lemma settled_entry (t : Tool) (p : nat) (k : string)
    (e : nat * Cause * Settle) :
  wf t -> requests t !! p = Some (Some k) -> calls_of p t = [e] ->
  e.1.1 = p /\ entry_ok (Some k) e.1.2 e.2.
Proof.
  intros Hwf Hrq Hc.
  assert (e ∈ calls_of p t) as [Hin Hp]%calls_of_elem by (rewrite Hc; left).
  split; [done|]. destruct e as [[q c] o]. simpl in *. subst q.
  apply (wf_settled _ Hwf) in Hin as (rq & Hrq' & Hok). congruence.
Qed.




(** ** Correlation *)

(** C6, as the specification states it, fails: a caller does not always
    receive the response that carries its id.  A request whose generated id
    is the empty string is passed over by the test on [response.request_id],
    and a response whose [error] is an object with a [toString] field makes
    the listener throw; in both cases the caller's promise stays pending and
    the entry stays in the table. *)
Lemma undelivered_response_counterexample :
  (let t := run (constructor false true)
                [SocketOpen 0; CallSend "get_projects" [] ""] in
   let response := VObj [("request_id", VStr ""); ("data", VStr "x")] in
   let t' := step t (SocketMessage 0 (Some response)) in
   pending_requests t !! "" = Some 0
   /\ promise_state t' 0 = None /\ pending_requests t' !! "" = Some 0)
  /\ (let t := run (constructor false true)
                   [SocketOpen 0; CallSend "get_projects" [] "i"] in
      let response :=
        VObj [("request_id", VStr "i");
              ("error", VObj [("toString", VNum 1 eq_refl)])] in
      let t' := step t (SocketMessage 0 (Some response)) in
      pending_requests t !! "i" = Some 0
      /\ promise_state t' 0 = None /\ pending_requests t' !! "i" = Some 0).
Proof. repeat split. Qed.

(** C6 (amended): along every run in which the ids of the outstanding
    requests are pairwise distinct (no call draws the id of an entry still in
    the table), whatever the order of the events: a response that the
    listener delivers to a caller carries that caller's own id, the call it
    makes is the one that this response determines, the promise takes it,
    and no second call is made on the promise; and while a request with a
    non-empty id is outstanding, a response that carries its id and whose
    [error], when truthy, has a string form is delivered to its caller, whose
    promise takes the outcome of that response, while every other outstanding
    request stays in the table with its promise untouched. *)
Theorem responses_reach_their_caller (override url_ok : bool) (es : list Event) :
  fresh_run (constructor override url_ok) es = true ->
  let t := run (constructor override url_ok) es in
  forall p k,
    requests t !! p = Some (Some k) ->
    length (calls_of p t) <= 1
    /\ (forall response o,
          (p, ViaResponse response, o) ∈ settled t ->
          exists ps,
            response = VObj ps /\ lookup_prop "request_id" ps = VStr k
            /\ response_settle ps = Some o
            /\ promise_state t p = Some o)
    /\ (pending_requests t !! k = Some p -> k ≠ "" ->
        forall j ps o,
          sockets t !! j = Some OPEN \/ sockets t !! j = Some CLOSING ->
          lookup_prop "request_id" ps = VStr k ->
          response_settle ps = Some o ->
          let t' := step t (SocketMessage j (Some (VObj ps))) in
          promise_state t' p = Some o
          /\ pending_requests t' !! k = None
          /\ forall k' p',
              k' ≠ k -> pending_requests t !! k' = Some p' ->
              pending_requests t' !! k' = Some p'
              /\ promise_state t' p' = None).
Proof.
  intros Hfresh t p k Hrq.
  pose proof (reachable_wf override url_ok es) as Hwf.
  pose proof (reachable_once override url_ok es Hfresh) as Honce.
  fold t in Hwf, Honce.
  assert (length (calls_of p t) <= 1
          /\ forall response o,
              (p, ViaResponse response, o) ∈ settled t ->
              exists ps,
                response = VObj ps /\ lookup_prop "request_id" ps = VStr k
                /\ response_settle ps = Some o
                /\ promise_state t p = Some o) as [Hlen Hsafe].
  { destruct (once_request _ Honce p _ Hrq) as [(k' & [= <-] & Hk)|[e He]].
    - destruct (once_pending _ Honce k p Hk) as [_ Hc]. rewrite Hc.
      split; [simpl; lia|]. intros response o Hin.
      assert ((p, ViaResponse response, o) ∈ calls_of p t) as Hin'
          by (by apply calls_of_elem).
      rewrite Hc in Hin'. by apply elem_of_nil in Hin'.
    - rewrite He. split; [simpl; lia|]. intros response o Hin.
      assert ((p, ViaResponse response, o) ∈ calls_of p t) as Hin'
          by (by apply calls_of_elem).
      rewrite He in Hin'. apply list_elem_of_singleton in Hin'. subst e.
      destruct (settled_entry t p k _ Hwf Hrq He) as [_ Hok]. simpl in Hok.
      destruct Hok as (ps & -> & Hid & _ & Ho). exists ps.
      unfold promise_state. rewrite He. done. }
  split; [done|]. split; [done|].
  intros Hk Hne j ps o Hj Hid Ho t'.
  assert (t' = set_pending (delete k (pending_requests t))
                 (settle p (ViaResponse (VObj ps)) o t)) as ->.
  { unfold t'. cbn [step]. rewrite <- (on_message_match ps k p o) by done.
    by destruct Hj as [-> | ->]. }
  destruct (once_pending _ Honce k p Hk) as [_ Hc].
  split; [|split].
  - unfold promise_state. erewrite calls_of_snoc by reflexivity.
    by rewrite Hc, Nat.eqb_refl.
  - apply lookup_delete_eq.
  - intros k' p' Hne' Hk'. simpl. rewrite lookup_delete_ne by done.
    split; [done|]. destruct (once_pending _ Honce k' p' Hk') as [_ Hc'].
    unfold promise_state. erewrite calls_of_snoc by reflexivity.
    rewrite Hc'. destruct (Nat.eqb_spec p p') as [->|]; [|done].
    apply (wf_pending _ Hwf) in Hk, Hk'. congruence.
Qed.

Lemma responses_reach_their_caller_witness :
  let es := [SocketOpen 0; CallSend "get_projects" [] "i";
             CallSend "get_file" [] "9";
             SocketMessage 0 (Some (VObj [("request_id", VStr "9");
                                          ("data", VStr "second")]))] in
  let t := run (constructor false true) es in
  let ps := [("request_id", VStr "i"); ("data", VStr "first")] in
  let t' := step t (SocketMessage 0 (Some (VObj ps))) in
  fresh_run (constructor false true) es = true
  /\ requests t !! 0 = Some (Some "i")
  /\ pending_requests t !! "i" = Some 0
  /\ promise_state t' 0 = Some (Resolve (VStr "first"))
  /\ pending_requests t' !! "i" = None.
Proof.
  split; [reflexivity|]. split; [reflexivity|]. split; [reflexivity|].
  refine (let H := proj2 (proj2
            (responses_reach_their_caller false true
               [SocketOpen 0; CallSend "get_projects" [] "i";
                CallSend "get_file" [] "9";
                SocketMessage 0 (Some (VObj [("request_id", VStr "9");
                                             ("data", VStr "second")]))]
               eq_refl 0 "i" eq_refl))
            eq_refl _ 0 [("request_id", VStr "i"); ("data", VStr "first")]
            (Resolve (VStr "first")) (or_introl eq_refl) eq_refl eq_refl in
          conj (proj1 H) (proj1 (proj2 H))).
  discriminate.
Defined.

(** ** Responses: error or data *)




(** ** What an operation returns *)

Lemma JSON_stringify_defined (v : value) :
  v ≠ VUndefined -> exists s, JSON_stringify v = Some s.
Proof. destruct v; simpl; eauto. done. Qed.

(** C5, as the specification states it, fails: when the response that
    resolves the request has no [data] field, the operation is fulfilled with
    [undefined], which is not a string. *)
Lemma undefined_result_counterexample :
  let t := run (constructor false true)
               [SocketOpen 0;
                CallTool (mkInput "getProjects" None None) "i";
                SocketMessage 0 (Some (VObj [("request_id", VStr "i")]))] in
  (_call (mkInput "getProjects" None None) "i"
         (run (constructor false true) [SocketOpen 0])).2 = Awaits 0
  /\ outcome t (Awaits 0) = Some (Fulfilled None).
Proof. split; reflexivity. Qed.

(** C5 (amended): whenever an operation called through the dispatcher is
    fulfilled, the request was resolved by a response, and the value returned
    is [JSON.stringify] of that response's [data]; it is a string whenever the
    response has a [data] field.  [getProjects] receiving the data
    [["proj1","proj2"]] returns the text [["proj1","proj2"]]. *)
Theorem facade_returns_serialized_data (override url_ok : bool)
    (es es' : list Event) (input : Input) (rnd : string) :
  let t0 := run (constructor override url_ok) es in
  let r := _call input rnd t0 in
  let t := run r.1 es' in
  forall result,
    outcome t r.2 = Some (Fulfilled result) ->
    exists p ps,
      r.2 = Awaits p
      /\ head (calls_of p t)
         = Some (p, ViaResponse (VObj ps), Resolve (lookup_prop "data" ps))
      /\ result = JSON_stringify (lookup_prop "data" ps)
      /\ (lookup_prop "data" ps ≠ VUndefined -> exists s, result = Some s).
Proof.
  intros t0 r t result Hout.
  assert (wf t) as Hwf.
  { apply wf_run. apply (wf_step t0 (CallTool input rnd)). apply reachable_wf. }
  destruct (r.2) as [m|p]; [done|]. simpl in Hout. unfold promise_state in Hout.
  destruct (calls_of p t) as [|[[q c] o] l] eqn:Hc; [done|]. simpl in Hout.
  destruct o as [v|m]; [|done]. injection Hout as <-.
  assert ((q, c, Resolve v) ∈ calls_of p t) as [Hin Hq]%calls_of_elem
      by (rewrite Hc; left).
  simpl in Hq. subst q.
  apply (wf_settled _ Hwf) in Hin as (rq & _ & Hok).
  destruct c as [resp| |], rq as [k|]; simpl in Hok; try done.
  destruct Hok as (ps & -> & _ & _ & Hv). exists p, ps.
  unfold response_settle in Hv.
  destruct (truthy _); [by destruct (to_String _)|].
  injection Hv as ->. split; [done|]. split; [by rewrite Hc|].
  split; [done|]. by apply JSON_stringify_defined.
Qed.

Lemma facade_returns_serialized_data_witness :
  let t0 := run (constructor false true) [SocketOpen 0] in
  let r := _call (mkInput "getProjects" None None) "i" t0 in
  let t := run r.1 [SocketMessage 0
                      (Some (VObj [("request_id", VStr "i");
                                   ("data", VArr [VStr "proj1"; VStr "proj2"])]))] in
  outcome t r.2
  = Some (Fulfilled (Some ("[" +:+ dq +:+ "proj1" +:+ dq +:+ ","
                           +:+ dq +:+ "proj2" +:+ dq +:+ "]")))
  /\ exists p ps,
      r.2 = Awaits p
      /\ head (calls_of p t)
         = Some (p, ViaResponse (VObj ps), Resolve (lookup_prop "data" ps))
      /\ Some ("[" +:+ dq +:+ "proj1" +:+ dq +:+ "," +:+ dq +:+ "proj2" +:+ dq +:+ "]")
         = JSON_stringify (lookup_prop "data" ps)
      /\ (lookup_prop "data" ps ≠ VUndefined ->
          exists s,
            Some ("[" +:+ dq +:+ "proj1" +:+ dq +:+ "," +:+ dq +:+ "proj2" +:+ dq +:+ "]")
            = Some s).
Proof.
  split; [reflexivity|].
  exact (facade_returns_serialized_data false true [SocketOpen 0]
           [SocketMessage 0
              (Some (VObj [("request_id", VStr "i");
                           ("data", VArr [VStr "proj1"; VStr "proj2"])]))]
           (mkInput "getProjects" None None) "i" _ eq_refl).
Defined.

(** ** Teardown *)






(** C3 on the code: after [cleanup] the ['close'] event of the socket it
    closed runs the listener, which arms the reconnect timer, and the timer
    opens a new socket although nobody called [connectWebSocket]; a reconnect
    timer that was armed before [cleanup] does the same. *)
Theorem reconnects_after_cleanup :
  let t := run (constructor false true) [SocketOpen 0; CallCleanup] in
  let t' := run t [SocketClose 0; ReconnectFires] in
  let u := run (constructor false true) [SocketOpen 0; SocketClose 0; CallCleanup] in
  let u' := run u [ReconnectFires] in
  (ws t = None /\ sockets t = [CLOSING] /\ timers t = []
   /\ ws t' = Some 1 /\ sockets t' = [CLOSED; CONNECTING])
  /\ (ws u = None /\ sockets u = [CLOSED] /\ timers u = [ReconnectTimer]
      /\ ws u' = Some 1 /\ sockets u' = [CLOSED; CONNECTING]).
Proof. repeat split. Qed.

(** ** The connection: which sockets exist and which one is [this.ws] *)

(** The handlers of requests leave the connection alone. *)
Lemma on_message_conn (data : option value) (t : Tool) :
  ws (on_message data t) = ws t
  /\ sockets (on_message data t) = sockets t
  /\ wsUrl_ok (on_message data t) = wsUrl_ok t
  /\ timers (on_message data t) = timers t
  /\ sent (on_message data t) = sent t.
Proof.
  destruct (on_message_cases data t)
    as [->|(ps & k & p & o & -> & Hid & Hne & Hp & Ho)]; [done|].
  by rewrite (on_message_match ps k p o).
Qed.

Lemma on_timeout_conn (k : string) (t : Tool) :
  ws (on_timeout k t) = ws t
  /\ sockets (on_timeout k t) = sockets t
  /\ wsUrl_ok (on_timeout k t) = wsUrl_ok t
  /\ timers (on_timeout k t) = timers t
  /\ sent (on_timeout k t) = sent t.
Proof. unfold on_timeout. by destruct (pending_requests t !! k). Qed.

Lemma send_conn (type : string) (payload : object) (rnd : string) (t : Tool) :
  ws (sendWebSocketRequest type payload rnd t).1 = ws t
  /\ sockets (sendWebSocketRequest type payload rnd t).1 = sockets t
  /\ wsUrl_ok (sendWebSocketRequest type payload rnd t).1 = wsUrl_ok t.
Proof.
  destruct (ws_is_open t) eqn:Hopen.
  - apply ws_is_open_spec in Hopen as (k & Hws & Hk).
    by rewrite (send_open _ _ _ k).
  - by rewrite send_closed.
Qed.

Lemma call_conn (input : Input) (rnd : string) (t : Tool) :
  ws (_call input rnd t).1 = ws t
  /\ sockets (_call input rnd t).1 = sockets t
  /\ wsUrl_ok (_call input rnd t).1 = wsUrl_ok t.
Proof.
  destruct (call_cases input rnd t) as [[m ->]|(type & payload & _ & ->)];
    [done|apply send_conn].
Qed.

Lemma on_open_conn (t : Tool) :
  ws (on_open t) = ws t /\ sockets (on_open t) = sockets t
  /\ wsUrl_ok (on_open t) = wsUrl_ok t.
Proof.
  unfold on_open. rewrite serialize_object. unfold ws_send.
  by repeat case_match.
Qed.

Lemma connect_ws_live (t : Tool) : ws_live t -> ws_live (connectWebSocket t).
Proof.
  intros Hlive k. unfold connectWebSocket.
  destruct (ws t) as [j|] eqn:Hws; [by apply Hlive|].
  destruct (wsUrl_ok t); simpl; [|done].
  intros [= <-]. exists CONNECTING. by rewrite list_lookup_middle.
Qed.

Lemma ws_live_insert (t : Tool) (k : nat) (st st0 : ReadyState) :
  ws_live t -> sockets t !! k = Some st0 -> st ≠ CLOSED ->
  ws_live (set_sockets (<[k := st]> (sockets t)) t).
Proof.
  intros Hlive Hk Hst j Hws. simpl in *.
  destruct (decide (j = k)) as [->|Hne].
  - exists st. split; [|done].
    apply list_lookup_insert_eq. by apply lookup_lt_Some in Hk.
  - rewrite list_lookup_insert_ne by done. by apply Hlive.
Qed.

Lemma ws_live_step (t : Tool) (e : Event) : ws_live t -> ws_live (step t e).
Proof.
  intros Hlive.
  destruct e as [|type payload rnd|input rnd| |k|k data|k|k|k| |id]; simpl.
  - by apply connect_ws_live.
  - intros k. destruct (send_conn type payload rnd t) as (-> & -> & _). apply Hlive.
  - intros k. destruct (call_conn input rnd t) as (-> & -> & _). apply Hlive.
  - intros k. unfold cleanup. destruct (ws t) eqn:Hws; simpl; [done|].
    rewrite Hws. done.
  - destruct (sockets t !! k) as [[]|] eqn:Hk; try done.
    intros j. destruct (on_open_conn (set_sockets (<[k:=OPEN]> (sockets t)) t))
      as (-> & -> & _). by apply (ws_live_insert t k OPEN CONNECTING).
  - assert (ws_live (on_message data t)).
    { intros j. destruct (on_message_conn data t) as (-> & -> & _). apply Hlive. }
    by repeat case_match.
  - destruct (sockets t !! k) as [[]|] eqn:Hk; try done.
    + by apply (ws_live_insert t k CLOSING CONNECTING).
    + by apply (ws_live_insert t k CLOSING OPEN).
  - by repeat case_match.
  - done.
  - case_match; [|done]. apply connect_ws_live. intros k. simpl. apply Hlive.
  - case_match; [|done]. intros j.
    destruct (on_timeout_conn id
                (set_timers (remove_first (RequestTimer id) (timers t)) t))
      as (-> & -> & _). simpl. apply Hlive.
Qed.

(** X1: in every state that the tool can reach, [this.ws] is either [null] or
    a socket that was created and has not emitted ['close']: it never refers
    to a closed socket.  It may refer to a socket that is connecting or
    closing, which is why a request tests the ready state. *)
Theorem handle_is_live (override url_ok : bool) (es : list Event) (k : nat) :
  ws (run (constructor override url_ok) es) = Some k ->
  exists st,
    sockets (run (constructor override url_ok) es) !! k = Some st
    /\ st ≠ CLOSED.
Proof.
  revert k. change (ws_live (run (constructor override url_ok) es)).
  assert (ws_live (constructor override url_ok)) as Hinit.
  { unfold constructor. destruct override; [by intros k|].
    apply connect_ws_live. by intros k. }
  revert Hinit. generalize (constructor override url_ok).
  induction es as [|e es IH]; simpl; [done|].
  intros t Hlive. apply IH. by apply ws_live_step.
Qed.

Lemma handle_is_live_witness :
  let t := run (constructor false true) [SocketOpen 0; SocketClosing 0] in
  ws t = Some 0
  /\ sockets t !! 0 = Some CLOSING
  /\ exists st, sockets t !! 0 = Some st /\ st ≠ CLOSED.
Proof.
  split; [reflexivity|]. split; [reflexivity|].
  exact (handle_is_live false true [SocketOpen 0; SocketClosing 0] 0 eq_refl).
Defined.

Lemma connect_others_closed (t : Tool) :
  others_closed t -> others_closed (connectWebSocket t).
Proof.
  intros Hoc j st. unfold connectWebSocket.
  destruct (ws t) as [k|] eqn:Hws; [by apply Hoc|].
  destruct (wsUrl_ok t); simpl.
  - intros Hj Hst. destruct (decide (j < length (sockets t))) as [Hlt|Hge].
    + rewrite lookup_app_l in Hj by done.
      specialize (Hoc j st Hj Hst). congruence.
    + apply lookup_lt_Some in Hj as Hlen. rewrite length_app in Hlen.
      simpl in Hlen. f_equal. lia.
  - intros Hj Hst. specialize (Hoc j st Hj Hst). congruence.
Qed.

Lemma others_closed_step (t : Tool) (e : Event) :
  e ≠ CallCleanup -> others_closed t -> others_closed (step t e).
Proof.
  intros Hne Hoc.
  destruct e as [|type payload rnd|input rnd| |k|k data|k|k|k| |id]; simpl.
  - by apply connect_others_closed.
  - intros j st. destruct (send_conn type payload rnd t) as (-> & -> & _). apply Hoc.
  - intros j st. destruct (call_conn input rnd t) as (-> & -> & _). apply Hoc.
  - done.
  - destruct (sockets t !! k) as [[]|] eqn:Hk; try done.
    intros j st.
    destruct (on_open_conn (set_sockets (<[k:=OPEN]> (sockets t)) t))
      as (-> & -> & _). simpl.
    destruct (decide (j = k)) as [->|Hjk].
    + intros _ _. by apply (Hoc k CONNECTING).
    + rewrite list_lookup_insert_ne by done. apply Hoc.
  - assert (others_closed (on_message data t)).
    { intros j st. destruct (on_message_conn data t) as (-> & -> & _). apply Hoc. }
    by repeat case_match.
  - assert (forall st0, sockets t !! k = Some st0 -> st0 ≠ CLOSED ->
                        others_closed (set_sockets (<[k:=CLOSING]> (sockets t)) t))
      as Hclosing.
    { intros st0 Hk Hst0 j st. simpl.
      destruct (decide (j = k)) as [->|Hjk].
      - intros _ _. by apply (Hoc k st0).
      - rewrite list_lookup_insert_ne by done. apply Hoc. }
    destruct (sockets t !! k) as [[]|] eqn:Hk; try done.
    + by apply (Hclosing CONNECTING).
    + by apply (Hclosing OPEN).
  - destruct (sockets t !! k) as [st0|] eqn:Hk; [|done].
    assert (st0 ≠ CLOSED ->
            others_closed (on_close (set_sockets (<[k:=CLOSED]> (sockets t)) t)))
      as Hclose.
    { intros Hst0 j st. simpl. pose proof (Hoc k st0 Hk Hst0) as Hwk.
      destruct (decide (j = k)) as [->|Hjk].
      - rewrite list_lookup_insert_eq by (by apply lookup_lt_Some in Hk).
        by intros [= <-].
      - rewrite list_lookup_insert_ne by done. intros Hj Hst.
        pose proof (Hoc j st Hj Hst) as Hwj. congruence. }
    destruct st0; try (apply Hclose; done). done.
  - done.
  - case_match; [|done]. apply connect_others_closed.
    intros j st. simpl. apply Hoc.
  - case_match; [|done]. intros j st.
    destruct (on_timeout_conn id
                (set_timers (remove_first (RequestTimer id) (timers t)) t))
      as (-> & -> & _). simpl. apply Hoc.
Qed.

Lemma others_closed_run (es : list Event) (t : Tool) :
  no_cleanup es = true -> others_closed t -> others_closed (run t es).
Proof.
  revert t. induction es as [|e es IH]; simpl; [done|].
  intros t [He Hes]%andb_prop Hoc. apply IH; [done|].
  apply others_closed_step; [|done]. by intros ->.
Qed.

(** X2: as long as the host does not call [cleanup], the tool holds at most
    one live socket: every socket that is not closed is [this.ws]. *)
Theorem one_live_socket (override url_ok : bool) (es : list Event)
    (j : nat) (st : ReadyState) :
  no_cleanup es = true ->
  sockets (run (constructor override url_ok) es) !! j = Some st ->
  st ≠ CLOSED ->
  ws (run (constructor override url_ok) es) = Some j.
Proof.
  intros Hes. revert j st.
  change (others_closed (run (constructor override url_ok) es)).
  apply others_closed_run; [done|].
  unfold constructor. destruct override.
  - intros j st. simpl. by rewrite lookup_nil.
  - apply connect_others_closed. intros j st. simpl. by rewrite lookup_nil.
Qed.

Lemma one_live_socket_witness :
  let es := [SocketOpen 0; SocketClose 0; ReconnectFires; SocketOpen 1] in
  no_cleanup es = true
  /\ sockets (run (constructor false true) es) !! 1 = Some OPEN
  /\ ws (run (constructor false true) es) = Some 1.
Proof.
  split; [reflexivity|]. split; [reflexivity|].
  refine (one_live_socket false true
            [SocketOpen 0; SocketClose 0; ReconnectFires; SocketOpen 1]
            1 OPEN eq_refl eq_refl _).
  discriminate.
Defined.

(** With [cleanup] the bound is lost: the ['close'] event of the socket that
    [cleanup] closed clears the handle of the socket opened since, and the
    reconnect timer opens a third one beside it. *)
Example cleanup_orphans_a_socket :
  let t := run (constructor false true)
               [SocketOpen 0; CallCleanup; CallConnect; SocketClose 0;
                ReconnectFires] in
  sockets t = [CLOSED; CONNECTING; CONNECTING] /\ ws t = Some 2.
Proof. split; reflexivity. Qed.

(** X3: when [new WebSocket(this.wsUrl)] throws, the tool never has a socket:
    in every reachable state [this.ws] is [null], no socket exists and no
    frame was ever written; and unless the constructor was told not to
    connect, a reconnect timer is armed at every moment, so the attempts
    never stop. *)
Theorem bad_url_never_connects (override : bool) (es : list Event) :
  (ws (run (constructor override false) es) = None
   /\ sockets (run (constructor override false) es) = []
   /\ sent (run (constructor override false) es) = [])
  /\ ReconnectTimer ∈ timers (run (constructor false false) es).
Proof.
  assert (forall es t,
             wsUrl_ok t = false -> ws t = None -> sockets t = [] -> sent t = [] ->
             let t' := run t es in
             (ws t' = None /\ sockets t' = [] /\ sent t' = [])
             /\ (ReconnectTimer ∈ timers t -> ReconnectTimer ∈ timers t'))
    as Hrun.
  { clear. induction es as [|e es IH]; [done|].
    intros t Hurl Hws Hso Hse. simpl.
    assert (ws_is_open t = false) as Hopen by (unfold ws_is_open; by rewrite Hws).
    assert (wsUrl_ok (step t e) = false /\ ws (step t e) = None
            /\ sockets (step t e) = [] /\ sent (step t e) = []
            /\ (ReconnectTimer ∈ timers t -> ReconnectTimer ∈ timers (step t e)))
      as (Hurl' & Hws' & Hso' & Hse' & Htm').
    { destruct e as [|type payload rnd|input rnd| |k|k data|k|k|k| |id]; simpl.
      - unfold connectWebSocket. rewrite Hws, Hurl. simpl.
        repeat split; try done. intros ?. apply elem_of_app. by left.
      - by rewrite send_closed.
      - destruct (call_cases input rnd t) as [[m ->]|(ty & pl & _ & ->)];
          [done|]. by rewrite send_closed.
      - unfold cleanup. by rewrite Hws.
      - by rewrite Hso, lookup_nil.
      - by rewrite Hso, lookup_nil.
      - by rewrite Hso, lookup_nil.
      - by rewrite Hso, lookup_nil.
      - done.
      - case_match; [|done]. unfold connectWebSocket. simpl.
        rewrite Hws, Hurl. simpl. repeat split; try done.
        intros _. apply elem_of_app. right. left.
      - case_match; [|done].
        destruct (on_timeout_conn id
                    (set_timers (remove_first (RequestTimer id) (timers t)) t))
          as (-> & -> & -> & -> & ->). simpl. repeat split; try done.
        intros ?. by apply elem_of_remove_first_ne. }
    destruct (IH (step t e) Hurl' Hws' Hso' Hse') as [? Htm]. split; [done|].
    intros ?. apply Htm, Htm'. done. }
  split.
  - apply Hrun; unfold constructor, connectWebSocket; by destruct override.
  - apply Hrun; try done. simpl. left.
Qed.

(** X4: an unplanned close is followed by a new connection: when the address
    is well formed and a socket that is not yet closed emits ['close'], the
    handle is cleared and the reconnect timer armed; when that timer fires, a
    new socket, in the connecting state, becomes [this.ws]. *)
Theorem reconnect_after_close (t : Tool) (k : nat) (st : ReadyState) :
  wsUrl_ok t = true -> sockets t !! k = Some st -> st ≠ CLOSED ->
  let t1 := step t (SocketClose k) in
  let t2 := step t1 ReconnectFires in
  ws t1 = None /\ ReconnectTimer ∈ timers t1
  /\ sockets t1 !! k = Some CLOSED
  /\ ws t2 = Some (length (sockets t))
  /\ sockets t2 = <[k := CLOSED]> (sockets t) ++ [CONNECTING].
Proof.
  intros Hurl Hk Hst t1 t2.
  assert (t1 = on_close (set_sockets (<[k:=CLOSED]> (sockets t)) t)) as Ht1.
  { unfold t1. simpl. rewrite Hk. by destruct st. }
  assert (ReconnectTimer ∈ timers t1) as Harmed.
  { rewrite Ht1. simpl. apply elem_of_app. right. left. }
  split; [by rewrite Ht1|]. split; [done|]. split.
  { rewrite Ht1. simpl. apply list_lookup_insert_eq. by apply lookup_lt_Some in Hk. }
  unfold t2. simpl. unfold armed. rewrite bool_decide_eq_true_2 by done.
  unfold connectWebSocket. rewrite Ht1. simpl. rewrite Hurl. simpl.
  by rewrite length_insert.
Qed.

Lemma reconnect_after_close_witness :
  let t := run (constructor false true) [SocketOpen 0] in
  let t2 := step (step t (SocketClose 0)) ReconnectFires in
  wsUrl_ok t = true /\ sockets t !! 0 = Some OPEN
  /\ ws t2 = Some 1 /\ sockets t2 = [CLOSED; CONNECTING].
Proof.
  split; [reflexivity|]. split; [reflexivity|].
  refine (proj2 (proj2 (proj2
            (reconnect_after_close (run (constructor false true) [SocketOpen 0])
               0 OPEN eq_refl eq_refl _)))).
  discriminate.
Defined.

(** X5: connecting is idempotent: when [this.ws] is set, [connectWebSocket]
    does nothing at all; and when the address is well formed, calling it
    twice in a row from any state is the same as calling it once, so at most
    one socket is opened. *)
Theorem connect_idempotent (t : Tool) :
  wsUrl_ok t = true ->
  connectWebSocket (connectWebSocket t) = connectWebSocket t
  /\ (forall k, ws t = Some k -> connectWebSocket t = t)
  /\ length (sockets (connectWebSocket t)) <= S (length (sockets t)).
Proof.
  intros Hurl.
  assert (forall k, ws t = Some k -> connectWebSocket t = t) as Hset.
  { intros k Hws. unfold connectWebSocket. by rewrite Hws. }
  split; [|split; [done|]].
  - destruct (ws t) as [k|] eqn:Hws; [by rewrite !(Hset k)|].
    unfold connectWebSocket at 2 3. rewrite Hws, Hurl.
    unfold connectWebSocket. done.
  - unfold connectWebSocket. destruct (ws t); [lia|].
    rewrite Hurl. simpl. rewrite length_app. simpl. lia.
Qed.

Lemma connect_idempotent_witness :
  let t := constructor true true in
  connectWebSocket (connectWebSocket t) = connectWebSocket t
  /\ (forall k, ws t = Some k -> connectWebSocket t = t)
  /\ length (sockets (connectWebSocket t)) <= S (length (sockets t)).
Proof. exact (connect_idempotent (constructor true true) eq_refl). Defined.

(** ** Inbound frames that match nothing *)

(** X6: an inbound frame that does not name an outstanding request is
    dropped: when the text does not parse, or the parsed value is not an
    object whose [request_id] is a non-empty string that is a key of the
    table (the reply to the verification message, a late or unknown reply),
    the ['message'] listener leaves the whole state as it is. *)
Theorem unmatched_message_dropped (t : Tool) (data : option value) :
  (forall ps k,
      data = Some (VObj ps) -> lookup_prop "request_id" ps = VStr k ->
      k = "" \/ pending_requests t !! k = None) ->
  on_message data t = t.
Proof.
  intros Hno.
  destruct (on_message_cases data t)
    as [|(ps & k & p & o & Hdata & Hid & Hne & Hp & _)]; [done|].
  destruct (Hno ps k Hdata Hid); congruence.
Qed.

Lemma unmatched_message_dropped_witness :
  let t := run (constructor false true)
               [SocketOpen 0; CallSend "get_projects" [] "i"] in
  on_message (Some (VObj [("request_id", VStr "initial-connection");
                          ("data", VStr "ok")])) t = t.
Proof.
  refine (unmatched_message_dropped
            (run (constructor false true)
                 [SocketOpen 0; CallSend "get_projects" [] "i"])
            (Some (VObj [("request_id", VStr "initial-connection");
                         ("data", VStr "ok")])) _).
  intros ps k [= <-] [= <-]. right. reflexivity.
Defined.

(** ** The dispatcher *)

(** X7: a selector that is none of the three operation names makes [_call]
    throw [Invalid function: <selector>]; nothing is sent, stored or armed. *)
Theorem invalid_function (t : Tool) (input : Input) (rnd : string) :
  function input ≠ "getProjects" ->
  function input ≠ "getProjectTree" ->
  function input ≠ "getProjectFile" ->
  _call input rnd t = (t, Throws ("Invalid function: " +:+ function input)).
Proof.
  intros H1%String.eqb_neq H2%String.eqb_neq H3%String.eqb_neq.
  unfold _call. by rewrite H1, H2, H3.
Qed.

Lemma invalid_function_witness :
  let t := run (constructor false true) [SocketOpen 0] in
  _call (mkInput "deleteProject" (Some "proj1") None) "i" t
  = (t, Throws "Invalid function: deleteProject").
Proof.
  refine (invalid_function (run (constructor false true) [SocketOpen 0])
            (mkInput "deleteProject" (Some "proj1") None) "i" _ _ _);
    discriminate.
Defined.

(** X8: the tree operation requires a project name: when it is missing or
    empty, [_call] throws [Project name is required] with the state
    untouched, whatever the file path is. *)
Theorem tree_requires_project_name (t : Tool) (input : Input) (rnd : string) :
  function input = "getProjectTree" ->
  project_name input = None \/ project_name input = Some "" ->
  _call input rnd t = (t, Throws "Project name is required").
Proof.
  intros Hf Hname. unfold _call. rewrite Hf.
  change (String.eqb "getProjectTree" "getProjects") with false.
  change (String.eqb "getProjectTree" "getProjectTree") with true.
  cbv iota. by destruct Hname as [->| ->].
Qed.

Lemma tree_requires_project_name_witness :
  let t := run (constructor false true) [SocketOpen 0] in
  _call (mkInput "getProjectTree" (Some "") (Some "a.py")) "i" t
  = (t, Throws "Project name is required").
Proof.
  exact (tree_requires_project_name
           (run (constructor false true) [SocketOpen 0])
           (mkInput "getProjectTree" (Some "") (Some "a.py")) "i"
           eq_refl (or_intror eq_refl)).
Defined.

(** X9: what each operation writes to an open socket.  [getProjects] sends
    the three fixed fields and nothing else, whatever the other arguments
    are; [getProjectTree] adds [project_name] and never the file path;
    [getProjectFile] adds [project_name] and [file_path], in this order. *)
Theorem operation_frames (t : Tool) (input : Input) (rnd : string) (k : nat) :
  ws t = Some k -> sockets t !! k = Some OPEN ->
  (function input = "getProjects" ->
   exists frame,
     JSON_stringify (VObj [("request_id", VStr rnd);
                           ("sender_type", VStr "plugin");
                           ("type", VStr "get_projects")]) = Some frame
     /\ sent (_call input rnd t).1 = sent t ++ [(k, frame)])
  /\ (forall name,
        function input = "getProjectTree" ->
        project_name input = Some name -> name ≠ "" ->
        exists frame,
          JSON_stringify (VObj [("request_id", VStr rnd);
                                ("sender_type", VStr "plugin");
                                ("type", VStr "get_project_tree");
                                ("project_name", VStr name)]) = Some frame
          /\ sent (_call input rnd t).1 = sent t ++ [(k, frame)])
  /\ (forall name path,
        function input = "getProjectFile" ->
        project_name input = Some name -> name ≠ "" ->
        file_path input = Some path -> path ≠ "" ->
        exists frame,
          JSON_stringify (VObj [("request_id", VStr rnd);
                                ("sender_type", VStr "plugin");
                                ("type", VStr "get_file");
                                ("project_name", VStr name);
                                ("file_path", VStr path)]) = Some frame
          /\ sent (_call input rnd t).1 = sent t ++ [(k, frame)]).
Proof.
  intros Hws Hk. repeat apply conj.
  - intros Hf. eexists. split; [reflexivity|].
    unfold _call, _getProjects. rewrite Hf.
    change (String.eqb "getProjects" "getProjects") with true. cbv iota.
    by rewrite (send_open _ _ _ k).
  - intros name Hf Hname Hne%truthy_string. eexists. split; [reflexivity|].
    unfold _call, _getProjectTree. rewrite Hf, Hname.
    change (String.eqb "getProjectTree" "getProjects") with false.
    change (String.eqb "getProjectTree" "getProjectTree") with true.
    cbv iota. cbn [arg]. rewrite Hne. cbn [negb].
    by rewrite (send_open _ _ _ k).
  - intros name path Hf Hname Hne%truthy_string Hpath Hpne%truthy_string.
    eexists. split; [reflexivity|].
    unfold _call, _getProjectFile. rewrite Hf, Hname, Hpath.
    change (String.eqb "getProjectFile" "getProjects") with false.
    change (String.eqb "getProjectFile" "getProjectTree") with false.
    change (String.eqb "getProjectFile" "getProjectFile") with true.
    cbv iota. cbn [arg]. rewrite Hne, Hpne. cbn [negb].
    by rewrite (send_open _ _ _ k).
Qed.

Lemma operation_frames_witness :
  let t := run (constructor false true) [SocketOpen 0] in
  let input := mkInput "getProjectTree" (Some "proj1") (Some "ignored.py") in
  exists frame,
    JSON_stringify (VObj [("request_id", VStr "i");
                          ("sender_type", VStr "plugin");
                          ("type", VStr "get_project_tree");
                          ("project_name", VStr "proj1")]) = Some frame
    /\ sent (_call input "i" t).1 = sent t ++ [(0, frame)].
Proof.
  refine (proj1 (proj2
            (operation_frames (run (constructor false true) [SocketOpen 0])
               (mkInput "getProjectTree" (Some "proj1") (Some "ignored.py"))
               "i" 0 eq_refl eq_refl))
            "proj1" eq_refl eq_refl _).
  discriminate.
Defined.

(** ** Promises and frames over time *)

(** X11: one event writes at most one frame, and only the ['open'] listener
    and the calls that send a request write at all: a response, a timeout, a
    close, a reconnection or a teardown never writes to a socket, so a
    request is never sent a second time. *)
Theorem no_retransmission (t : Tool) (e : Event) :
  exists l,
    sent (step t e) = sent t ++ l
    /\ length l <= (if writes e then 1 else 0).
Proof.
  assert (forall t' n, sent t' = sent t ->
                       exists l, sent t' = sent t ++ l /\ length l <= n) as Hsame.
  { intros t' n ->. exists []. rewrite app_nil_r. split; [done|simpl; lia]. }
  assert (forall ty pl rnd,
             exists l, sent (sendWebSocketRequest ty pl rnd t).1 = sent t ++ l
                       /\ length l <= 1) as Hsend.
  { intros ty pl rnd. destruct (ws_is_open t) eqn:Hopen.
    - apply ws_is_open_spec in Hopen as (k & Hws & Hk).
      rewrite (send_open _ _ _ k) by done. simpl. eauto.
    - rewrite send_closed by done. by apply Hsame. }
  destruct e as [|type payload rnd|input rnd| |k|k data|k|k|k| |id]; simpl.
  - apply Hsame. unfold connectWebSocket. by repeat case_match.
  - apply Hsend.
  - destruct (call_cases input rnd t) as [[m ->]|(ty & pl & _ & ->)];
      [by apply Hsame|apply Hsend].
  - apply Hsame. unfold cleanup. by case_match.
  - destruct (sockets t !! k) as [[]|]; try by apply Hsame.
    unfold on_open. rewrite serialize_object. unfold ws_send. simpl.
    repeat case_match; simpl; eauto.
  - apply Hsame. destruct (on_message_conn data t) as (_ & _ & _ & _ & Hs).
    by repeat case_match.
  - apply Hsame. by repeat case_match.
  - apply Hsame. by repeat case_match.
  - by apply Hsame.
  - apply Hsame. case_match; [|done].
    unfold connectWebSocket. simpl. by repeat case_match.
  - apply Hsame. case_match; [|done].
    destruct (on_timeout_conn id
                (set_timers (remove_first (RequestTimer id) (timers t)) t))
      as (_ & _ & _ & _ & ->). done.
Qed.

(** ** A request whose id is the empty string *)

(** X12: when [Math.random()] is 0 the generated id is the empty string, and
    the listener's test [response.request_id && ...] never lets a response
    reach that request: whatever frame arrives, the entry stays in the table
    and no call is made on its promise.  Only its timeout ends it, with the
    timeout error. *)
Theorem empty_id_only_times_out (override url_ok : bool) (es : list Event)
    (p : nat) :
  let t := run (constructor override url_ok) es in
  pending_requests t !! "" = Some p ->
  (forall data,
      pending_requests (on_message data t) !! "" = Some p
      /\ calls_of p (on_message data t) = calls_of p t)
  /\ pending_requests (on_timeout "" t) !! "" = None
  /\ settled (on_timeout "" t)
     = settled t ++ [(p, ViaTimeout, Reject "Request timeout")].
Proof.
  intros t Hp. pose proof (reachable_wf override url_ok es) as Hwf. fold t in Hwf.
  split.
  - intros data.
    destruct (on_message_cases data t)
      as [->|(ps & k & q & o & -> & Hid & Hne & Hq & Ho)]; [done|].
    rewrite (on_message_match ps k q o) by done. simpl.
    rewrite lookup_delete_ne by done. split; [done|].
    erewrite calls_of_snoc by reflexivity.
    destruct (Nat.eqb_spec q p) as [->|]; [|by rewrite app_nil_r].
    apply (wf_pending _ Hwf) in Hp, Hq. congruence.
  - rewrite (on_timeout_match "" p) by done. simpl.
    by rewrite lookup_delete_eq.
Qed.

Lemma empty_id_only_times_out_witness :
  let t := run (constructor false true)
               [SocketOpen 0; CallSend "get_projects" [] ""] in
  pending_requests t !! "" = Some 0
  /\ forall data,
      pending_requests (on_message data t) !! "" = Some 0
      /\ calls_of 0 (on_message data t) = calls_of 0 t.
Proof.
  split; [reflexivity|].
  exact (proj1 (empty_id_only_times_out false true
                  [SocketOpen 0; CallSend "get_projects" [] ""] 0 eq_refl)).
Defined.

(** ** An operation from call to result *)

Lemma call_on_open_socket (override url_ok : bool) (es : list Event)
    (input : Input) (rnd : string) (k p : nat) :
  let t := run (constructor override url_ok) es in
  ws t = Some k -> sockets t !! k = Some OPEN ->
  (_call input rnd t).2 = Awaits p ->
  let t1 := (_call input rnd t).1 in
  pending_requests t1 !! rnd = Some p
  /\ sockets t1 = sockets t
  /\ timers t1 = timers t ++ [RequestTimer rnd]
  /\ calls_of p t1 = [].
Proof.
  intros t Hws Hk Hp t1. unfold t1.
  pose proof (reachable_wf override url_ok es) as Hwf. fold t in Hwf.
  destruct (call_cases input rnd t) as [[m Hm]|(ty & pl & _ & Hcall)].
  { rewrite Hm in Hp. done. }
  rewrite Hcall in Hp |- *. simpl in *.
  rewrite (send_open _ _ _ k) in Hp |- * by done. simpl in *.
  injection Hp as <-. rewrite lookup_insert_eq. repeat split.
  by apply (calls_of_unborn _ t).
Qed.

(** X13: an operation from end to end.  Called on an open socket with a
    non-empty generated id, then answered on that socket by a response that
    carries the id: the operation is fulfilled with [JSON.stringify] of the
    response's [data] when its [error] is absent or falsy, and rejected with
    the error's string form as message when it is truthy, and the entry
    leaves the table; the remote error string reaches the caller unchanged.
    When the truthy error has no string form the listener throws: the
    operation stays suspended and its entry stays in the table. *)
Theorem operation_round_trip (override url_ok : bool) (es : list Event)
    (input : Input) (rnd : string) (k p : nat) (ps : object) :
  let t := run (constructor override url_ok) es in
  ws t = Some k -> sockets t !! k = Some OPEN -> rnd ≠ "" ->
  (_call input rnd t).2 = Awaits p ->
  lookup_prop "request_id" ps = VStr rnd ->
  let t' := run t [CallTool input rnd; SocketMessage k (Some (VObj ps))] in
  (forall o,
      response_settle ps = Some o ->
      outcome t' (Awaits p) = Some (settle_outcome o)
      /\ pending_requests t' !! rnd = None)
  /\ (response_settle ps = None ->
      outcome t' (Awaits p) = None
      /\ pending_requests t' !! rnd = Some p).
Proof.
  intros t Hws Hk Hne Hp Hid t'.
  destruct (call_on_open_socket override url_ok es input rnd k p Hws Hk Hp)
    as (Hpend & Hsock & _ & Hcalls).
  fold t in Hpend, Hsock, Hcalls. set (t1 := (_call input rnd t).1) in *.
  change t' with (step t1 (SocketMessage k (Some (VObj ps)))).
  cbn [step]. rewrite Hsock, Hk. split.
  - intros o Ho. rewrite (on_message_match ps rnd p o) by done.
    split; [|simpl; apply lookup_delete_eq].
    unfold outcome, promise_state. erewrite calls_of_snoc by reflexivity.
    rewrite Hcalls, Nat.eqb_refl. simpl. by destruct o.
  - intros Ho. rewrite on_message_throws by done. split; [|done].
    unfold outcome, promise_state. by rewrite Hcalls.
Qed.

Lemma operation_round_trip_witness :
  let t := run (constructor false true) [SocketOpen 0] in
  let input := mkInput "getProjectFile" (Some "proj1") (Some "a.py") in
  let ps := [("request_id", VStr "i"); ("error", VStr "not found")] in
  let t' := run t [CallTool input "i"; SocketMessage 0 (Some (VObj ps))] in
  outcome t' (Awaits 0) = Some (Rejected "not found")
  /\ pending_requests t' !! "i" = None.
Proof.
  refine (proj1 (operation_round_trip false true [SocketOpen 0]
                   (mkInput "getProjectFile" (Some "proj1") (Some "a.py")) "i" 0 0
                   [("request_id", VStr "i"); ("error", VStr "not found")]
                   eq_refl eq_refl _ eq_refl eq_refl)
            (Reject "not found") eq_refl).
  discriminate.
Defined.

(** X14: an operation that gets no answer.  Called on an open socket, then
    reached by its 30 second timer before any response: the operation is
    rejected with [Request timeout] and its entry leaves the table. *)
Theorem operation_times_out (override url_ok : bool) (es : list Event)
    (input : Input) (rnd : string) (k p : nat) :
  let t := run (constructor override url_ok) es in
  ws t = Some k -> sockets t !! k = Some OPEN ->
  (_call input rnd t).2 = Awaits p ->
  let t' := run t [CallTool input rnd; TimeoutFires rnd] in
  outcome t' (Awaits p) = Some (Rejected "Request timeout")
  /\ pending_requests t' !! rnd = None.
Proof.
  intros t Hws Hk Hp t'.
  destruct (call_on_open_socket override url_ok es input rnd k p Hws Hk Hp)
    as (Hpend & _ & Htimers & Hcalls).
  fold t in Hpend, Htimers, Hcalls. set (t1 := (_call input rnd t).1) in *.
  change t' with (step t1 (TimeoutFires rnd)).
  cbn [step]. unfold armed. rewrite Htimers.
  rewrite bool_decide_eq_true_2 by (apply elem_of_app; right; left).
  rewrite (on_timeout_match rnd p) by done.
  split; [|simpl; apply lookup_delete_eq].
  unfold outcome, promise_state. erewrite calls_of_snoc by reflexivity.
  rewrite (calls_of_same p t1) by done.
  by rewrite Hcalls, Nat.eqb_refl.
Qed.

Lemma operation_times_out_witness :
  let t := run (constructor false true) [SocketOpen 0] in
  let input := mkInput "getProjects" None None in
  let t' := run t [CallTool input "i"; TimeoutFires "i"] in
  outcome t' (Awaits 0) = Some (Rejected "Request timeout")
  /\ pending_requests t' !! "i" = None.
Proof.
  exact (operation_times_out false true [SocketOpen 0]
           (mkInput "getProjects" None None) "i" 0 0 eq_refl eq_refl eq_refl).
Defined.


(** * The transport *)

Module TransportFacts.
Import Transport.

Lemma step_socket (t : T) (e : Event) (k : nat) :
  _socket t = Some k -> _socket (step t e) = Some k.
Proof.
  intros Hs.
  destruct e as [| |message|c e m|j|j ev|j|j|j parsed]; simpl.
  - unfold start. by rewrite Hs.
  - unfold close. by rewrite Hs.
  - unfold send. by repeat case_match.
  - done.
  - by repeat case_match.
  - unfold socket_onerror. by repeat case_match.
  - by repeat case_match.
  - unfold socket_onclose. by repeat case_match.
  - unfold socket_onmessage. by repeat case_match.
Qed.

Lemma run_socket (es : list Event) (t : T) (k : nat) :
  _socket t = Some k -> _socket (run t es) = Some k.
Proof.
  revert t. induction es as [|e es IH]; simpl; [done|].
  intros t Hs. apply IH. by apply step_socket.
Qed.

(** X16: a transport is started for good.  Once [start] has created the
    socket, nothing ever clears [_socket] (not [close], not the ['close']
    event), so every later [start] throws the already-started error and
    changes nothing; a closed transport cannot be started again. *)
Theorem started_for_good (t : T) (es : list Event) (k : nat) :
  _socket t = Some k ->
  _socket (run t es) = Some k
  /\ start (run t es) = (run t es, StartThrows already_started)
  /\ start (close (run t es)) = (close (run t es), StartThrows already_started).
Proof.
  intros Hs. pose proof (run_socket es t k Hs) as Hrun.
  split; [done|]. split.
  - unfold start. by rewrite Hrun.
  - pose proof (step_socket (run t es) CallClose k Hrun) as Hclose.
    simpl in Hclose. unfold start. by rewrite Hclose.
Qed.

Lemma started_for_good_witness :
  let t := run (constructor None None) [CallStart] in
  let es := [SocketOpen 0; CallClose; SocketClose 0] in
  _socket t = Some 0
  /\ _socket (run t es) = Some 0
  /\ start (run t es) = (run t es, StartThrows already_started)
  /\ start (close (run t es)) = (close (run t es), StartThrows already_started).
Proof.
  split; [reflexivity|].
  exact (started_for_good (run (constructor None None) [CallStart])
           [SocketOpen 0; CallClose; SocketClose 0] 0 eq_refl).
Defined.

Lemma step_sockets (t : T) (e : Event) :
  (_socket t = None -> sockets t = []) ->
  length (sockets t) <= 1 ->
  (forall s, s ∈ sockets t -> options s = wsOptions t) ->
  (_socket (step t e) = None -> sockets (step t e) = [])
  /\ length (sockets (step t e)) <= 1
  /\ (forall s, s ∈ sockets (step t e) -> options s = wsOptions (step t e)).
Proof.
  intros Hnone Hlen Hopt.
  assert (forall j s st,
             sockets t !! j = Some s ->
             (_socket t = None -> <[j := set_readyState st s]> (sockets t) = [])
             /\ length (<[j := set_readyState st s]> (sockets t)) <= 1
             /\ (forall s', s' ∈ <[j := set_readyState st s]> (sockets t) ->
                            options s' = wsOptions t)) as Hins.
  { intros j s st Hj. split; [|split].
    - intros Hn. rewrite (Hnone Hn) in Hj. by rewrite lookup_nil in Hj.
    - by rewrite length_insert.
    - intros s' [i Hi]%list_elem_of_lookup.
      destruct (decide (i = j)) as [->|Hne].
      + rewrite list_lookup_insert_eq in Hi by (by apply lookup_lt_Some in Hj).
        injection Hi as <-. simpl. apply Hopt. by apply list_elem_of_lookup_2 in Hj.
      + rewrite list_lookup_insert_ne in Hi by done.
        apply Hopt. by apply list_elem_of_lookup_2 in Hi. }
  destruct e as [| |message|c e m|j|j ev|j|j|j parsed]; simpl.
  - unfold start. destruct (_socket t) as [k|] eqn:Hs; simpl.
    + rewrite Hs. done.
    + rewrite (Hnone eq_refl) in *.
      destruct (ctor_error t); simpl; [done|].
      repeat split; [done|lia|]. by intros s ->%list_elem_of_singleton.
  - unfold close. destruct (_socket t) as [k|] eqn:Hs; simpl; [|by rewrite Hs].
    rewrite Hs. split; [done|]. split.
    + by rewrite length_alter.
    + intros s' [i Hi]%list_elem_of_lookup.
      rewrite list_lookup_alter in Hi. case_decide; simpl in Hi.
      * destruct (sockets t !! k) as [s0|] eqn:Hi0; [|done].
        injection Hi as <-. change (options s0 = wsOptions t).
        apply Hopt. by apply list_elem_of_lookup_2 in Hi0.
      * change (options s' = wsOptions t).
        apply Hopt. by apply list_elem_of_lookup_2 in Hi.
  - unfold send. by repeat case_match.
  - done.
  - destruct (sockets t !! j) as [s|] eqn:Hj; [|done].
    destruct (readyState s); try done. by apply Hins.
  - destruct (sockets t !! j) as [s|] eqn:Hj; [|done].
    unfold socket_onerror. by repeat case_match.
  - destruct (sockets t !! j) as [s|] eqn:Hj; [|done].
    destruct (readyState s); try done; by apply Hins.
  - destruct (sockets t !! j) as [s|] eqn:Hj; [|done].
    unfold socket_onclose.
    destruct (readyState s); try done;
      destruct (onclose _) eqn:E; simpl; by apply Hins.
  - unfold socket_onmessage. by repeat case_match.
Qed.

(** X17: a transport creates at most one socket in its life, and the options
    object that it passes to [new WebSocket] has the field [protocol] set to
    ["mcp"] and the field [headers] set to the headers given to the
    constructor when there is at least one header; an empty headers object
    is passed as no [headers] field at all.  (What the socket library makes
    of these fields is outside the transport's code.) *)
Theorem at_most_one_socket (ctor_error : option string)
    (headers : option (list (string * string))) (es : list Event) :
  let t := run (constructor ctor_error headers) es in
  length (sockets t) <= 1
  /\ forall s,
      s ∈ sockets t ->
      protocol (options s) = "mcp"
      /\ Transport.headers (options s)
         = match headers with
           | Some (h :: hs) => Some (h :: hs)
           | _ => None
           end.
Proof.
  assert (forall es t,
             (_socket t = None -> sockets t = []) ->
             length (sockets t) <= 1 ->
             (forall s, s ∈ sockets t -> options s = wsOptions t) ->
             _headers (run t es) = _headers t
             /\ length (sockets (run t es)) <= 1
             /\ (forall s, s ∈ sockets (run t es) -> options s = wsOptions t))
    as Hrun.
  { clear. induction es as [|e es IH]; simpl; [done|].
    intros t H1 H2 H3.
    destruct (step_sockets t e H1 H2 H3) as (H1' & H2' & H3').
    assert (_headers (step t e) = _headers t) as Hh.
    { destruct e; simpl; try done.
      - unfold start. by repeat case_match.
      - unfold close. by repeat case_match.
      - unfold send. by repeat case_match.
      - by repeat case_match.
      - unfold socket_onerror. by repeat case_match.
      - by repeat case_match.
      - unfold socket_onclose. by repeat case_match.
      - unfold socket_onmessage. by repeat case_match. }
    destruct (IH (step t e) H1' H2' H3') as (Ha & Hb & Hc).
    split; [congruence|]. split; [done|].
    intros s Hs. rewrite (Hc s Hs). unfold wsOptions. by rewrite Hh. }
  intros t.
  destruct (Hrun es (constructor ctor_error headers)) as (_ & Hlen & Hopt).
  - done.
  - simpl. lia.
  - intros s Hs. by apply elem_of_nil in Hs.
  - split; [done|]. intros s Hs. by rewrite (Hopt s Hs).
Qed.

Lemma at_most_one_socket_witness :
  let headers := Some [("Authorization", "Bearer abc")] in
  let t := run (constructor None headers) [CallStart; CallClose; SocketClose 0] in
  mkSocket CLOSED (mkOptions "mcp" headers) 0 ∈ sockets t
  /\ protocol (mkOptions "mcp" headers) = "mcp"
  /\ Transport.headers (mkOptions "mcp" headers) = headers.
Proof.
  assert (mkSocket CLOSED (mkOptions "mcp" (Some [("Authorization", "Bearer abc")])) 0
          ∈ sockets (run (constructor None (Some [("Authorization", "Bearer abc")]))
                         [CallStart; CallClose; SocketClose 0]))
    as H by left.
  split; [exact H|].
  exact (proj2 (at_most_one_socket None (Some [("Authorization", "Bearer abc")])
                  [CallStart; CallClose; SocketClose 0]) _ H).
Defined.

Lemma socket_open_spec (t : T) (k : nat) :
  socket_open t = Some k
  <-> exists s, _socket t = Some k /\ sockets t !! k = Some s
                /\ readyState s = OPEN.
Proof.
  unfold socket_open. split.
  - destruct (_socket t) as [j|]; [|done].
    destruct (sockets t !! j) as [s|] eqn:Hj; [|done].
    destruct (readyState s) eqn:Hst; try done. intros [= <-]. eauto.
  - intros (s & -> & -> & ->). done.
Qed.

Lemma socket_open_close (t : T) : socket_open (close t) = None.
Proof.
  destruct (socket_open (close t)) as [k|] eqn:E; [|done].
  apply socket_open_spec in E as (s & Hs & Hk & Hst).
  unfold close in *. destruct (_socket t) as [j|] eqn:Hj; simpl in *;
    [|congruence].
  rewrite Hj in Hs. injection Hs as ->.
  rewrite list_lookup_alter in Hk. rewrite decide_True in Hk by done.
  destruct (sockets t !! k) as [s0|]; [|done]. injection Hk as <-.
  simpl in Hst. by destruct (readyState s0).
Qed.

(** X18: [send] needs an open socket.  Without a socket, or with a socket
    that is connecting, closing or closed, the promise is rejected with
    [Not connected] and nothing is written; in particular every [send] after
    [close] fails.  On an open socket exactly one frame is written, the text
    of the message, and the promise is resolved. *)
Theorem send_needs_open_socket (t : T) (message : object) :
  (_socket t = None
   \/ (exists k s, _socket t = Some k /\ sockets t !! k = Some s
                   /\ readyState s ≠ OPEN) ->
   send message t = (t, SendRejected "Not connected"))
  /\ send message (close t) = (close t, SendRejected "Not connected")
  /\ (forall k s,
        _socket t = Some k -> sockets t !! k = Some s -> readyState s = OPEN ->
        exists frame,
          JSON_stringify (VObj message) = Some frame
          /\ sent (send message t).1 = sent t ++ [(k, frame)]
          /\ (send message t).2 = SendResolved).
Proof.
  repeat apply conj.
  - intros Hclosed. unfold send.
    destruct (socket_open t) as [k|] eqn:E; [|done].
    apply socket_open_spec in E as (s & Hs & Hk & Hst).
    destruct Hclosed as [?|(k' & s' & ? & ? & ?)]; congruence.
  - unfold send. by rewrite socket_open_close.
  - intros k s Hs Hk Hst. eexists. split; [reflexivity|].
    unfold send.
    assert (socket_open t = Some k) as -> by (apply socket_open_spec; eauto).
    done.
Qed.

Lemma send_needs_open_socket_witness :
  let t := run (constructor None None) [CallStart; SocketOpen 0] in
  let message := [("jsonrpc", VStr "2.0"); ("id", VNum 1 eq_refl); ("method", VStr "ping")] in
  _socket t = Some 0
  /\ (readyState <$> sockets t !! 0) = Some OPEN
  /\ exists frame,
      JSON_stringify (VObj message) = Some frame
      /\ sent (send message t).1 = sent t ++ [(0, frame)]
      /\ (send message t).2 = SendResolved.
Proof.
  split; [reflexivity|]. split; [reflexivity|].
  exact (proj2 (proj2
           (send_needs_open_socket
              (run (constructor None None) [CallStart; SocketOpen 0])
              [("jsonrpc", VStr "2.0"); ("id", VNum 1 eq_refl); ("method", VStr "ping")]))
           0 (mkSocket OPEN (mkOptions "mcp" None) 0) eq_refl eq_refl eq_refl).
Defined.

(** X20: when [new WebSocket] throws, [start] does not throw: it returns a
    promise already rejected with the constructor's error, and leaves
    [_socket] unset, so that a later [start] is a new attempt and not an
    already-started error.  This holds after any number of attempts. *)
Theorem failed_start_can_be_retried (message : string)
    (headers : option (list (string * string))) (es : list Event) :
  let t := run (constructor (Some message) headers) es in
  _socket t = None
  /\ (start t).2 = StartPromise (starts t)
  /\ start_state (start t).1 (starts t) = Some (Failed message)
  /\ _socket (start t).1 = None.
Proof.
  assert (forall es t,
             ctor_error t = Some message -> _socket t = None -> sockets t = [] ->
             (forall p o, (p, o) ∈ start_settled t -> p < starts t) ->
             let t' := run t es in
             ctor_error t' = Some message /\ _socket t' = None
             /\ (forall p o, (p, o) ∈ start_settled t' -> p < starts t'))
    as Hrun.
  { clear. induction es as [|e es IH]; simpl; [done|].
    intros t Hc Hs Hso Hlog. apply IH.
    - destruct e; simpl; try done; unfold start, close, send;
        rewrite ?Hs, ?Hc, ?Hso, ?lookup_nil; try done.
      by repeat case_match.
    - destruct e; simpl; try done; unfold start, close, send;
        rewrite ?Hs, ?Hc, ?Hso, ?lookup_nil; try done.
      by repeat case_match.
    - destruct e; simpl; try done; unfold start, close, send;
        rewrite ?Hs, ?Hc, ?Hso, ?lookup_nil; try done.
      by repeat case_match.
    - destruct e; simpl; try done; unfold start, close, send;
        rewrite ?Hs, ?Hc, ?Hso, ?lookup_nil; simpl; try done.
      + intros p o [Hin|Hin%list_elem_of_singleton]%elem_of_app.
        * apply Hlog in Hin. lia.
        * injection Hin as -> ->. lia.
      + by repeat case_match. }
  intros t.
  destruct (Hrun es (constructor (Some message) headers)) as (Hc & Hs & Hlog);
    try done.
  { intros p o Hin. by apply elem_of_nil in Hin. }
  fold t in Hc, Hs, Hlog. split; [done|].
  unfold start. rewrite Hs, Hc. simpl. repeat split.
  unfold start_state. simpl. rewrite List.filter_app. simpl.
  rewrite Nat.eqb_refl.
  destruct (List.filter _ (start_settled t)) as [|[q o] l] eqn:E; [done|].
  assert ((q, o) ∈ List.filter (fun e => Nat.eqb e.1 (starts t)) (start_settled t))
    as Hin by (rewrite E; left).
  apply list_elem_of_In, List.filter_In in Hin as [Hin Hq].
  apply list_elem_of_In, Hlog in Hin. apply Nat.eqb_eq in Hq. simpl in Hq. lia.
Qed.

Lemma valid_messages_cons (e : Event) (es : list Event) (m : value) :
  m ∈ valid_messages es -> m ∈ valid_messages (e :: es).
Proof.
  intros Hin. destruct e as [| | | | | | | |j [err|m']]; simpl; try done.
  by right.
Qed.

(** X21: [onmessage] only ever receives a message that arrived on the
    socket and passed both parsers; a frame that fails to parse or to
    validate is never handed to it. *)
Theorem onmessage_gets_valid_messages (t : T) (es : list Event) (m : value) :
  OnMessage m ∈ invoked (run t es) ->
  OnMessage m ∈ invoked t \/ m ∈ valid_messages es.
Proof.
  revert t. induction es as [|e es IH]; simpl; [by left|].
  intros t Hin. destruct (IH _ Hin) as [Hstep|Hes].
  - destruct e as [| |message|c e0 m0|j|j ev|j|j|j parsed]; simpl in Hstep.
    + left. unfold start in Hstep. by repeat case_match.
    + left. unfold close in Hstep. by repeat case_match.
    + left. unfold send in Hstep. by repeat case_match.
    + by left.
    + left. by repeat case_match.
    + left. unfold socket_onerror in Hstep.
      repeat case_match; simpl in Hstep; try done.
      all: apply elem_of_app in Hstep as [?|Hl]; [done|].
      all: by apply list_elem_of_singleton in Hl.
    + left. by repeat case_match.
    + left. unfold socket_onclose in Hstep.
      repeat case_match; simpl in Hstep; try done.
      all: apply elem_of_app in Hstep as [?|Hl]; [done|].
      all: by apply list_elem_of_singleton in Hl.
    + unfold socket_onmessage in Hstep.
      destruct parsed as [err|m']; repeat case_match; simpl in Hstep;
        try (by left).
      all: apply elem_of_app in Hstep as [?|Hl]; [by left|].
      all: apply list_elem_of_singleton in Hl; try done.
      all: injection Hl as ->; right; simpl; left.
  - right. by apply valid_messages_cons.
Qed.

Lemma onmessage_gets_valid_messages_witness :
  let t := run (constructor None None)
               [Assign true true true; CallStart; SocketOpen 0] in
  let es := [SocketMessage 0 (inl "Unexpected token");
             SocketMessage 0 (inr (VObj [("jsonrpc", VStr "2.0"); ("method", VStr "notifications/initialized")]))] in
  OnMessage (VObj [("jsonrpc", VStr "2.0"); ("method", VStr "notifications/initialized")]) ∈ invoked (run t es)
  /\ (OnMessage (VObj [("jsonrpc", VStr "2.0"); ("method", VStr "notifications/initialized")]) ∈ invoked t
      \/ VObj [("jsonrpc", VStr "2.0"); ("method", VStr "notifications/initialized")] ∈ valid_messages es).
Proof.
  assert (OnMessage (VObj [("jsonrpc", VStr "2.0"); ("method", VStr "notifications/initialized")])
          ∈ invoked (run (run (constructor None None)
                              [Assign true true true; CallStart; SocketOpen 0])
                         [SocketMessage 0 (inl "Unexpected token");
                          SocketMessage 0 (inr (VObj [("jsonrpc", VStr "2.0"); ("method", VStr "notifications/initialized")]))]))
    as H by (right; left).
  split; [exact H|].
  exact (onmessage_gets_valid_messages _ _ _ H).
Defined.

End TransportFacts.
